(** * Request trust gateway of the clinic backend

    A shallow embedding of
    - [backend/middleware/authorizeRole.js]  (role authorizer),
    - [backend/middleware/authenticate.js]   (bearer-token verifier),
    - the password utility exporting [generateTempPassword]
      (secure random integer, Fisher-Yates shuffle, temporary password),
    together with the properties the specification states about them. *)

From Stdlib Require Import ZArith String Ascii List Lia Permutation.
From stdpp Require Import base option list strings gmap.

Open Scope string_scope.
Open Scope Z_scope.

(** ** The fragment of JavaScript the middleware relies on *)

Module JS.

(** Numbers that the authorizer can produce: integers, [+Infinity]
    (the value of [Math.min()] on no arguments) and [NaN]. *)
Inductive number : Type :=
| Fin (z : Z)
| Infinity
| NaN.

(** Values read out of an object used as a table. *)
Inductive value : Type :=
| Undefined
| Num (n : number)
| Function_ (name : string)
| Object_ (name : string).

#[global] Instance number_eq_dec : EqDecision number.
Proof. solve_decision. Defined.

#[global] Instance value_eq_dec : EqDecision value.
Proof. solve_decision. Defined.

(** [ToBoolean] *)
Definition truthy (v : value) : bool :=
  match v with
  | Undefined => false
  | Num (Fin z) => negb (z =? 0)
  | Num Infinity => true
  | Num NaN => false
  | Function_ _ | Object_ _ => true
  end.

(** [a || b] *)
Definition or (a b : value) : value := if truthy a then a else b.

(** [ToNumber]: a function or a plain object converts through its string
    form, which is not a numeric literal. *)
Definition ToNumber (v : value) : number :=
  match v with
  | Undefined => NaN
  | Num n => n
  | Function_ _ | Object_ _ => NaN
  end.

(** [a >= b] on numbers: false as soon as one side is [NaN]. *)
Definition ge_number (a b : number) : bool :=
  match a, b with
  | NaN, _ | _, NaN => false
  | Infinity, _ => true
  | Fin _, Infinity => false
  | Fin x, Fin y => y <=? x
  end.

(** [a >= b] on values *)
Definition ge (a b : value) : bool := ge_number (ToNumber a) (ToNumber b).

Definition min_number (a b : number) : number :=
  match a, b with
  | NaN, _ | _, NaN => NaN
  | Infinity, x => x
  | x, Infinity => x
  | Fin x, Fin y => Fin (Z.min x y)
  end.

(** [Math.min(...args)]: [+Infinity] on no argument, [NaN] as soon as one
    argument converts to [NaN]. *)
Definition Math_min (args : list value) : number :=
  foldr (fun v acc => min_number (ToNumber v) acc) Infinity args.

(** The properties every object literal inherits from [Object.prototype]. *)
Definition Object_prototype : gmap string value :=
  list_to_map
    [ ("constructor", Function_ "Object");
      ("__defineGetter__", Function_ "__defineGetter__");
      ("__defineSetter__", Function_ "__defineSetter__");
      ("hasOwnProperty", Function_ "hasOwnProperty");
      ("__lookupGetter__", Function_ "__lookupGetter__");
      ("__lookupSetter__", Function_ "__lookupSetter__");
      ("isPrototypeOf", Function_ "isPrototypeOf");
      ("propertyIsEnumerable", Function_ "propertyIsEnumerable");
      ("toString", Function_ "toString");
      ("valueOf", Function_ "valueOf");
      ("__proto__", Object_ "Object.prototype");
      ("toLocaleString", Function_ "toLocaleString") ].

(** [obj[key]] for an object literal [obj] with own properties [own]:
    own property first, then the prototype, else [undefined]. *)
Definition get (own : gmap string value) (key : string) : value :=
  match own !! key with
  | Some v => v
  | None => default Undefined (Object_prototype !! key)
  end.

(** [s.startsWith(p)] *)
Definition startsWith (s p : string) : bool := String.prefix p s.

(** [s.split(sep)] for a one-character separator. *)
Fixpoint split (sep : ascii) (s : string) : list string :=
  match s with
  | EmptyString => [EmptyString]
  | String c rest =>
      if Ascii.eqb c sep then EmptyString :: split sep rest
      else match split sep rest with
           | [] => [String c EmptyString]
           | w :: ws => String c w :: ws
           end
  end.

(** [s.charAt(k)]: the empty string out of range. *)
Definition charAt (s : string) (k : Z) : string :=
  if (k <? 0) then EmptyString
  else match String.get (Z.to_nat k) s with
       | Some c => String c EmptyString
       | None => EmptyString
       end.

End JS.

(** ** Requests, replies and the logger *)

(** Decoded token payload ([req.user] once attached).  A claim that is
    absent reads as [undefined], here [None]; claims are strings. *)
Record Payload : Type := mkPayload {
  userId : option string;
  id : option string;
  username : option string;
  role : option string;
  nbf : option Z;
  exp : option Z
}.

Record Request : Type := mkRequest {
  authorization : option string;   (* req.headers.authorization *)
  user : option Payload;           (* req.user *)
  originalUrl : string;
  method : string;
  ip : string
}.

(** What a middleware does with the request: call [next()] or send a JSON
    body under a status code. *)
Inductive Reply : Type :=
| Next
| Json (status : Z) (body : list (string * string)).

Inductive meta : Type :=
| MString (s : option string)
| MBool (b : bool)
| MList (l : list string).

Record LogEntry : Type := mkLog {
  level : string;
  text : string;
  fields : list (string * meta)
}.

(** Outcome of one middleware run: the reply, the records handed to the
    logger (oldest first) and the request as the next handler sees it. *)
Record Handled : Type := mkHandled {
  reply : Reply;
  logged : list LogEntry;
  request : Request
}.

(** [ToBoolean] of a string-valued claim. *)
Definition present (c : option string) : bool :=
  match c with
  | Some s => negb (String.eqb s "")
  | None => false
  end.

(** [a || b] on string-valued claims. *)
Definition or_claim (a b : option string) : option string :=
  if present a then a else b.

(** The verdicts of the specification, as the replies that carry them. *)
Module Verdict.
Definition Allow : Reply := Next.
Definition Deny_StrictRoleMismatch : Reply :=
  Json 403 [("message", "Access denied. This endpoint requires specific role access.")].
Definition Deny_InsufficientRole : Reply :=
  Json 403 [("message", "Access denied. Insufficient permissions.")].
Definition Unauthenticated_MissingToken : Reply :=
  Json 401 [("message", "Authentication required")].
Definition Unauthenticated_InvalidToken : Reply :=
  Json 401 [("message", "Invalid token")].
Definition Unauthenticated_TokenExpired : Reply :=
  Json 401 [("message", "Token expired"); ("code", "TOKEN_EXPIRED")].
Definition Unauthenticated_TokenNotYetValid : Reply :=
  Json 401 [("message", "Token not yet valid")].
Definition Unauthenticated_Failed : Reply :=
  Json 401 [("message", "Authentication failed")].
End Verdict.

(** ** [authorizeRole.js] *)

Definition ROLE_HIERARCHY : gmap string JS.value :=
  {[ "admin" := JS.Num (JS.Fin 5);
     "manager" := JS.Num (JS.Fin 4);
     "dentist" := JS.Num (JS.Fin 3);
     "staff" := JS.Num (JS.Fin 2);
     "patient" := JS.Num (JS.Fin 1) ]}.

(** [ROLE_HIERARCHY[r] || 0] *)
Definition rank (r : string) : JS.value :=
  JS.or (JS.get ROLE_HIERARCHY r) (JS.Num (JS.Fin 0)).

Record Options : Type := mkOptions { strict : option bool }.

(** The property key a role value converts to. *)
Definition role_key (userRole : option string) : string :=
  default "undefined" userRole.

(** [allowedRoles.includes(userRole)] *)
Definition includes (allowedRoles : list string) (userRole : option string) : bool :=
  match userRole with
  | Some r => bool_decide (r ∈ allowedRoles)
  | None => false
  end.

(** [Math.min(...allowedRoles.map(r => ROLE_HIERARCHY[r] || 0))] *)
Definition requiredLevel (allowedRoles : list string) : JS.number :=
  JS.Math_min (map rank allowedRoles).

Definition authorizeRole (allowedRoles : list string) (options : Options)
    (now : string) (req : Request) : Handled :=
  let strict := default false (strict options) in
  match user req with
  | None => mkHandled (Json 401 [("message", "Authentication required")]) [] req
  | Some u =>
      let userRole := role u in
      let userLevel := rank (role_key userRole) in
      if includes allowedRoles userRole then mkHandled Next [] req
      else if strict then
        mkHandled
          (Json 403 [("message", "Access denied. This endpoint requires specific role access.")])
          [ mkLog "warn" "Authorization failed (strict mode)"
              [ ("userId", MString (or_claim (userId u) (id u)));
                ("username", MString (username u));
                ("userRole", MString userRole);
                ("requiredRoles", MList allowedRoles);
                ("strictMode", MBool true);
                ("resource", MString (Some (originalUrl req)));
                ("method", MString (Some (method req)));
                ("timestamp", MString (Some now)) ] ]
          req
      else
        let requiredLevel := requiredLevel allowedRoles in
        if JS.ge userLevel (JS.Num requiredLevel) then mkHandled Next [] req
        else
          mkHandled
            (Json 403 [("message", "Access denied. Insufficient permissions.")])
            [ mkLog "warn" "Authorization failed"
                [ ("userId", MString (or_claim (userId u) (id u)));
                  ("username", MString (username u));
                  ("userRole", MString userRole);
                  ("requiredRoles", MList allowedRoles);
                  ("resource", MString (Some (originalUrl req)));
                  ("method", MString (Some (method req)));
                  ("timestamp", MString (Some now)) ] ]
            req
  end.

(** ** The password utility: secure random integers *)

(** Errors a computation can throw. *)
Record Error : Type := mkError { name : string; message : string }.

Inductive Result (A : Type) : Type :=
| Ok (a : A)
| Throw (e : Error).
Arguments Ok {A} a.
Arguments Throw {A} e.

(** The entropy source behind [crypto.randomInt]: the raw draw the source
    yields at each call, and the upper bounds asked of it so far (oldest
    first).  Quantifying over [source] covers every behaviour of the
    generator: the [k]-th call with bound [max] may return any value of
    [[0, max)]. *)
Record Entropy : Type := mkEntropy {
  source : nat -> Z;
  asked : list Z
}.

(** Computations that consume entropy and may throw. *)
Definition Rand (A : Type) : Type := Entropy -> Result A * Entropy.

Definition ret {A} (a : A) : Rand A := fun s => (Ok a, s).

Definition bind {A B} (m : Rand A) (k : A -> Rand B) : Rand B :=
  fun s =>
    match m s with
    | (Ok a, s') => k a s'
    | (Throw e, s') => (Throw e, s')
    end.

Notation "'do' x <- m ; k" := (bind m (fun x => k))
  (at level 10, x name, m at level 100, k at level 200).

(** [crypto.randomInt(0, max)]: a [RangeError] unless [max > 0], else a draw
    in [[0, max)].  (The runtime also rejects ranges above [2^48 - 1]; no
    array or string length reaches that.) *)
Definition randomInt (max : Z) : Rand Z :=
  fun s =>
    if max <=? 0 then (Throw (mkError "RangeError" "ERR_OUT_OF_RANGE"), s)
    else (Ok (source s (length (asked s)) mod max),
          mkEntropy (source s) (asked s ++ [max])).

Definition secureRandomInt (max : Z) : Rand Z := randomInt max.

(** ** Fisher-Yates shuffle *)

(** [[arr[i], arr[j]] = [arr[j], arr[i]]].  Both indices are inside the
    array at every call the loop makes (see [swap_in_range]); outside it
    the model leaves the array alone. *)
Definition swap {A} (arr : list A) (i j : nat) : list A :=
  match arr !! j, arr !! i with
  | Some aj, Some ai => <[j:=ai]> (<[i:=aj]> arr)
  | _, _ => arr
  end.

(** [for (let i = arr.length - 1; i > 0; i--)], entered at index [i]. *)
Fixpoint shuffle_loop {A} (i : nat) (arr : list A) : Rand (list A) :=
  match i with
  | O => ret arr
  | S i' =>
      do j <- secureRandomInt (Z.of_nat i + 1) ;
      shuffle_loop i' (swap arr i (Z.to_nat j))
  end.

(** [const arr = [...array]] is a copy: the input is left as it is.  On
    the empty array the index starts at [-1] and the loop body never runs,
    as with the truncated subtraction below. *)
Definition secureShuffle {A} (array : list A) : Rand (list A) :=
  let arr := array in
  shuffle_loop (length arr - 1)%nat arr.

(** ** Temporary passwords *)

Definition uppercase : string := "ABCDEFGHIJKLMNOPQRSTUVWXYZ".
Definition lowercase : string := "abcdefghijklmnopqrstuvwxyz".
Definition numbers : string := "0123456789".
Definition symbols : string := "!@#$%^&*".
Definition allChars : string := uppercase +:+ lowercase +:+ numbers +:+ symbols.

(** [s.length] *)
Definition strlen (s : string) : Z := Z.of_nat (String.length s).

(** [for (let i = 4; i < length; i++) password += allChars.charAt(...)],
    with [n] iterations left. *)
Fixpoint fill_rest (n : nat) (password : string) : Rand string :=
  match n with
  | O => ret password
  | S n' =>
      do k <- secureRandomInt (strlen allChars) ;
      fill_rest n' (password +:+ JS.charAt allChars k)
  end.

(** [generateTempPassword(length = 12)]; [password.split('')] is the list
    of the characters of [password] and [join('')] its inverse. *)
Definition generateTempPassword (length : option Z) : Rand string :=
  let length := default 12 length in
  let password := "" in
  do k <- secureRandomInt (strlen uppercase) ;
  let password := password +:+ JS.charAt uppercase k in
  do k <- secureRandomInt (strlen lowercase) ;
  let password := password +:+ JS.charAt lowercase k in
  do k <- secureRandomInt (strlen numbers) ;
  let password := password +:+ JS.charAt numbers k in
  do k <- secureRandomInt (strlen symbols) ;
  let password := password +:+ JS.charAt symbols k in
  do password <- fill_rest (Z.to_nat (length - 4)) password ;
  do arr <- secureShuffle (list_ascii_of_string password) ;
  ret (string_of_list_ascii arr).

(** A string has a character of class [cls]. *)
Definition in_class (cls : string) (c : ascii) : bool :=
  existsb (Ascii.eqb c) (list_ascii_of_string cls).

Definition has_class (cls s : string) : bool :=
  existsb (in_class cls) (list_ascii_of_string s).

Definition all_in_class (cls s : string) : bool :=
  forallb (in_class cls) (list_ascii_of_string s).

(** An entropy source for the examples. *)
Definition sample_entropy : Entropy :=
  mkEntropy (fun k => Z.of_nat (7 * k * k + 3 * k + 11)) [].

(** ** [authenticate.js] *)

Record VerifyOptions : Type := mkVerifyOptions {
  algorithms : list string;
  complete : bool
}.

(** The interface of the [jsonwebtoken] package the middleware calls:
    [jwt.verify(token, secretOrPublicKey, options)] returns the decoded
    payload or throws. *)
Record JsonWebToken : Type := mkJsonWebToken {
  verify : string -> option string -> VerifyOptions -> Result Payload
}.

(** [token === lit] for the token read out of the header. *)
Definition is_literal (token : option string) (lit : string) : bool :=
  bool_decide (token = Some lit).

Definition authenticate (jwt : JsonWebToken) (JWT_SECRET : option string)
    (req : Request) : Handled :=
  let authHeader := authorization req in
  match authHeader with
  | None => mkHandled (Json 401 [("message", "Authentication required")]) [] req
  | Some header =>
      if negb (present authHeader) || negb (JS.startsWith header "Bearer ") then
        mkHandled (Json 401 [("message", "Authentication required")]) [] req
      else
        let token := JS.split " " header !! 1%nat in
        if negb (present token) || is_literal token "null"
           || is_literal token "undefined" then
          mkHandled (Json 401 [("message", "Authentication required")]) [] req
        else
          match verify jwt (default "" token) JWT_SECRET
                  (mkVerifyOptions ["HS256"] false) with
          | Ok decoded =>
              if negb (present (userId decoded)) || negb (present (role decoded)) then
                mkHandled (Json 401 [("message", "Invalid token")])
                  [ mkLog "warn" "Invalid token payload"
                      [ ("userId", MString (userId decoded)) ] ]
                  req
              else
                mkHandled Next []
                  (mkRequest (authorization req) (Some decoded)
                     (originalUrl req) (method req) (ip req))
          | Throw error =>
              if String.eqb (name error) "TokenExpiredError" then
                mkHandled
                  (Json 401 [("message", "Token expired"); ("code", "TOKEN_EXPIRED")])
                  [] req
              else if String.eqb (name error) "JsonWebTokenError" then
                mkHandled (Json 401 [("message", "Invalid token")])
                  [ mkLog "warn" "JWT verification failed"
                      [ ("error", MString (Some (message error)));
                        ("ip", MString (Some (ip req))) ] ]
                  req
              else if String.eqb (name error) "NotBeforeError" then
                mkHandled (Json 401 [("message", "Token not yet valid")]) [] req
              else
                mkHandled (Json 401 [("message", "Authentication failed")])
                  [ mkLog "error" "Authentication error"
                      [ ("error", MString (Some (message error))) ] ]
                  req
          end
  end.

(** A compact token once its three segments are decoded: the algorithm
    named in its header and its payload. *)
Record Jws : Type := mkJws {
  alg : string;
  payload : Payload
}.

(** What the token library takes from its runtime: the decoding of the
    compact serialization, the signature check of a token under an
    algorithm and a key, and the clock (seconds). *)
Record Runtime : Type := mkRuntime {
  decode : string -> option Jws;
  signature_valid : string -> string -> string -> bool;
  clockTimestamp : Z
}.

(** Modelled from the spec: [verify] of the [jsonwebtoken] package, which
    is a dependency and not part of the sources.  Transition 2 (structure,
    then the algorithm of the header against the pinned list, then the
    signature against the configured secret; each failure is a
    [JsonWebTokenError]) and transition 3 (not yet valid is a
    [NotBeforeError], expired a [TokenExpiredError]); otherwise the decoded
    payload is returned.  Without a configured secret nothing verifies. *)
Definition jwt_verify (rt : Runtime) (token : string) (secret : option string)
    (options : VerifyOptions) : Result Payload :=
  match decode rt token with
  | None => Throw (mkError "JsonWebTokenError" "jwt malformed")
  | Some t =>
      match secret with
      | None => Throw (mkError "JsonWebTokenError" "secret or public key must be provided")
      | Some key =>
          if negb (bool_decide (alg t ∈ algorithms options)) then
            Throw (mkError "JsonWebTokenError" "invalid algorithm")
          else if negb (signature_valid rt token (alg t) key) then
            Throw (mkError "JsonWebTokenError" "invalid signature")
          else if match nbf (payload t) with
                  | Some n => clockTimestamp rt <? n
                  | None => false
                  end then
            Throw (mkError "NotBeforeError" "jwt not active")
          else if match exp (payload t) with
                  | Some e => e <=? clockTimestamp rt
                  | None => false
                  end then
            Throw (mkError "TokenExpiredError" "jwt expired")
          else Ok (payload t)
      end
  end.

Definition jsonwebtoken (rt : Runtime) : JsonWebToken :=
  mkJsonWebToken (jwt_verify rt).

(** ** Vocabulary of the properties *)

(** The five roles of the closed set. *)
Definition closed_role (r : string) : Prop :=
  r = "admin" \/ r = "manager" \/ r = "dentist" \/ r = "staff" \/ r = "patient".

(** A name that [Object.prototype] does not define. *)
Definition plain_name (r : string) : Prop := JS.Object_prototype !! r = None.

#[global] Instance closed_role_dec (r : string) : Decision (closed_role r).
Proof. unfold closed_role. apply _. Defined.

(** A request carrying an authenticated principal of role [r]. *)
Definition principal (r : string) : Request :=
  mkRequest None (Some (mkPayload (Some "u-17") None (Some "kim") (Some r) None None))
    "/api/patients/me" "GET" "10.0.0.7".

(** The bounds the loop asks of the generator when entered at index [i]:
    [i + 1], then [i], ... down to [2]. *)
Fixpoint bounds_from (i : nat) : list Z :=
  match i with
  | O => []
  | S i' => (Z.of_nat i + 1) :: bounds_from i'
  end.

(** Exchanging two positions of a sequence, said position by position:
    position [i] takes what was at [j], position [j] what was at [i], and
    every other position keeps its element. *)
Definition exchange {A} (seq : list A) (i j : nat) : list A :=
  imap (fun k x =>
          if Nat.eqb k i then default x (seq !! j)
          else if Nat.eqb k j then default x (seq !! i)
          else x) seq.

(** Fisher-Yates as the specification words it: from the last index down
    to index 1, the element at index [i] is exchanged with the one at the
    partner index drawn by [secureRandomInt(i + 1)]; [draw k] is the raw
    value behind the [k]-th call of the generator. *)
Fixpoint fisher_yates {A} (draw : nat -> Z) (k i : nat) (seq : list A) : list A :=
  match i with
  | O => seq
  | S i' =>
      let j := Z.to_nat (draw k mod (Z.of_nat i + 1)) in
      fisher_yates draw (S k) i' (exchange seq i j)
  end.

Definition no_space (token : string) : bool :=
  forallb (fun c => negb (Ascii.eqb c " ")) (list_ascii_of_string token).

(** A token as it travels in the header: no space in it, and neither empty
    nor one of the two sentinel literals. *)
Definition bearer_token (token : string) : Prop :=
  no_space token = true /\
  token <> "" /\ token <> "null" /\ token <> "undefined".

(** A runtime for the examples: two tokens decode, one under [HS256]
    without a role claim, one under [none] with every claim, and every
    signature check succeeds. *)
Definition sample_runtime : Runtime :=
  mkRuntime
    (fun token =>
       if String.eqb token "hs256.norole.sig" then
         Some (mkJws "HS256" (mkPayload (Some "u-9") None None None None None))
       else if String.eqb token "none.admin.sig" then
         Some (mkJws "none"
                 (mkPayload (Some "u-1") None None (Some "admin") None None))
       else None)
    (fun _ _ _ => true)
    1700000000.

(** ** Vocabulary of the further properties *)

(** The value a log record carries under a key. *)
Fixpoint assoc {V} (key : string) (kvs : list (string * V)) : option V :=
  match kvs with
  | [] => None
  | (k, v) :: rest => if String.eqb k key then Some v else assoc key rest
  end.

Definition field (key : string) (e : LogEntry) : option meta :=
  assoc key (fields e).

(** ** [routes/adminRoutes.js]: the guarded routes *)

(** Two middleware in a row, as [router.get(path, first, second, ...)]
    runs them: the second sees the request the first passed on with
    [next()], and does not run when the first answered. *)
Definition chain (first second : Request -> Handled) (req : Request) : Handled :=
  let h1 := first req in
  match reply h1 with
  | Next =>
      let h2 := second (request h1) in
      mkHandled (reply h2) (logged h1 ++ logged h2) (request h2)
  | Json _ _ => h1
  end.

Record Route : Type := mkRoute {
  verb : string;
  path : string;
  allowed : list string;     (* authorizeRole([...]) *)
  controller : string
}.

Definition adminRoutes : list Route :=
  [ mkRoute "GET" "/users" ["admin"; "manager"] "listUsers";
    mkRoute "POST" "/users" ["admin"] "createUser";
    mkRoute "PATCH" "/users/:id" ["admin"; "manager"] "updateUser";
    mkRoute "DELETE" "/users/:id" ["admin"; "manager"] "deactivateUser";
    mkRoute "POST" "/users/:id/activate" ["admin"; "manager"] "activateUser";
    mkRoute "POST" "/users/:id/reset-password" ["admin"] "resetPassword";
    mkRoute "DELETE" "/users/:id/hard-delete" ["admin"] "deleteUser" ].

(** What runs before the controller of a route:
    [authenticate, authorizeRole(allowed)]. *)
Definition guard (jwt : JsonWebToken) (JWT_SECRET : option string) (now : string)
    (route : Route) : Request -> Handled :=
  chain (authenticate jwt JWT_SECRET)
        (authorizeRole (allowed route) (mkOptions None) now).

(** ** [controllers/treatmentController.js] *)

(** Values of request bodies, of JSON columns and of rows read from the
    models.  Numbers are integers here. *)
#[local] Unset Elimination Schemes.
Inductive json : Type :=
| JUndefined
| JNull
| JBool (b : bool)
| JNumber (z : Z)
| JString (s : string)
| JArray (items : list json)
| JObject (props : list (string * json)).
#[local] Set Elimination Schemes.

(** [ToBoolean] *)
Definition truthy (v : json) : bool :=
  match v with
  | JUndefined | JNull => false
  | JBool b => b
  | JNumber z => negb (z =? 0)
  | JString s => negb (String.eqb s "")
  | JArray _ | JObject _ => true
  end.

(** [a || b] *)
Definition or_else (a b : json) : json := if truthy a then a else b.

(** [a === b] where one side at least is a primitive: an array or an
    object is never strictly equal to a value read from elsewhere. *)
Definition strict_eq (a b : json) : bool :=
  match a, b with
  | JUndefined, JUndefined | JNull, JNull => true
  | JBool x, JBool y => Bool.eqb x y
  | JNumber x, JNumber y => x =? y
  | JString x, JString y => String.eqb x y
  | _, _ => false
  end.

(** [v.key], for the keys the controller reads ([lineItems],
    [treatmentId], [performedBy], [id]; [Object.prototype] defines none of
    them): a [TypeError] on [null] and [undefined], [undefined] when the
    property is missing. *)
Definition get_prop (v : json) (key : string) : Result json :=
  match v with
  | JUndefined =>
      Throw (mkError "TypeError"
               ("Cannot read properties of undefined (reading '" +:+ key +:+ "')"))
  | JNull =>
      Throw (mkError "TypeError"
               ("Cannot read properties of null (reading '" +:+ key +:+ "')"))
  | JObject props => Ok (default JUndefined (assoc key props))
  | JBool _ | JNumber _ | JString _ | JArray _ => Ok JUndefined
  end.

(** A claim of the principal as a value. *)
Definition claim (c : option string) : json :=
  match c with
  | Some s => JString s
  | None => JUndefined
  end.

(** [where] of [Treatment.findAll]. *)
Record Where : Type := mkWhere {
  where_patientHN : option string;
  where_id_notIn : option (list json)
}.

(** The body fields the controller reads. *)
Record TreatmentFields : Type := mkFields {
  f_patientHN : json;
  f_appointmentId : json;
  f_treatmentDate : json;
  f_procedureCodes : json;
  f_description : json;
  f_toothNumbers : json;
  f_performedBy : json;
  f_clinicalNotes : json;
  f_estimatedCost : json;
  f_status : json
}.

(** What [treatment.update] is given: [patientHN] and [appointmentId] are
    not part of it. *)
Record UpdateFields : Type := mkUpdate {
  u_treatmentDate : json;
  u_procedureCodes : json;
  u_description : json;
  u_toothNumbers : json;
  u_performedBy : json;
  u_clinicalNotes : json;
  u_estimatedCost : json;
  u_status : json
}.

(** The models, as far as the controller calls them: each call returns or
    rejects, as the database decides. *)
Record Models : Type := mkModels {
  Invoice_findAll : string -> Result (list json);
  Treatment_findAll : Where -> Result json;
  Treatment_findByPk : string -> Result json;
  Patient_findOne : json -> Result json;
  User_findByPk : json -> Result json;
  Treatment_create : TreatmentFields -> Result json;
  Treatment_update : json -> UpdateFields -> Result json
}.

Inductive DbCall : Type :=
| CInvoiceFindAll (patientHN : string)
| CTreatmentFindAll (w : Where)
| CTreatmentFindByPk (id : string)
| CPatientFindOne (hn : json)
| CUserFindByPk (id : json)
| CTreatmentCreate (data : TreatmentFields)
| CTreatmentUpdate (row : json) (data : UpdateFields).

Record Note : Type := mkNote {
  severity : string;
  note : string;
  details : list (string * json)
}.

(** What a controller leaves behind: the records logged and the calls
    made to the models, oldest first. *)
Record World : Type := mkWorld {
  notes : list Note;
  calls : list DbCall
}.

Inductive Response : Type :=
| Send (status : Z) (body : json).

(** Controller code: it logs, calls the models, and may throw. *)
Definition Ctl (A : Type) : Type := World -> Result A * World.

Definition pure {A} (a : A) : Ctl A := fun w => (Ok a, w).

Definition raise {A} (e : Error) : Ctl A := fun w => (Throw e, w).

Definition then_ {A B} (m : Ctl A) (k : A -> Ctl B) : Ctl B :=
  fun w =>
    match m w with
    | (Ok a, w') => k a w'
    | (Throw e, w') => (Throw e, w')
    end.

Notation "'await' x <- m ; k" := (then_ m (fun x => k))
  (at level 10, x name, m at level 100, k at level 200).

Definition lift {A} (r : Result A) : Ctl A := fun w => (r, w).

(** [await Model.method(...)] *)
Definition query {A} (c : DbCall) (r : Result A) : Ctl A :=
  fun w => (r, mkWorld (notes w) (calls w ++ [c])).

(** [logger.<severity>(note, details)] *)
Definition log (severity note : string) (details : list (string * json)) : Ctl unit :=
  fun w => (Ok tt, mkWorld (notes w ++ [mkNote severity note details]) (calls w)).

(** [try { body } catch (error) { handler }] *)
Definition try_catch {A} (body : Ctl A) (handler : Error -> Ctl A) : Ctl A :=
  fun w =>
    match body w with
    | (Ok a, w') => (Ok a, w')
    | (Throw e, w') => handler e w'
    end.

Definition message_body (text : string) : json :=
  JObject [("message", JString text)].

(** [req.user.<claim>]: a [TypeError] when [req.user] is not set. *)
Definition user_claim (u : option Payload) (key : string)
    (proj : Payload -> option string) : Result json :=
  match u with
  | Some p => Ok (claim (proj p))
  | None =>
      Throw (mkError "TypeError"
               ("Cannot read properties of undefined (reading '" +:+ key +:+ "')"))
  end.

(** The [forEach] over the line items of one invoice. *)
Fixpoint collect_items (items : list json) (acc : list json) : Result (list json) :=
  match items with
  | [] => Ok acc
  | item :: rest =>
      match get_prop item "treatmentId" with
      | Throw e => Throw e
      | Ok tid =>
          if truthy tid then collect_items rest (acc ++ [tid])
          else collect_items rest acc
      end
  end.

(** [invoices.reduce((acc, invoice) => ..., [])] *)
Fixpoint invoicedTreatmentIds (invoices : list json) (acc : list json)
    : Result (list json) :=
  match invoices with
  | [] => Ok acc
  | invoice :: rest =>
      match get_prop invoice "lineItems" with
      | Throw e => Throw e
      | Ok (JArray items) =>
          match collect_items items acc with
          | Throw e => Throw e
          | Ok acc' => invoicedTreatmentIds rest acc'
          end
      | Ok _ => invoicedTreatmentIds rest acc
      end
  end.

(** [exports.getTreatments]; [patientHN] and [excludeInvoiced] are the
    query parameters, strings when present. *)
Definition getTreatments (db : Models) (patientHN excludeInvoiced : option string)
    : Ctl Response :=
  try_catch
    (let whereClause := mkWhere None None in
     let whereClause :=
       if present patientHN then mkWhere patientHN (where_id_notIn whereClause)
       else whereClause in
     await whereClause <-
       (if bool_decide (excludeInvoiced = Some "true") && present patientHN then
          await invoices <-
            query (CInvoiceFindAll (default "" patientHN))
                  (Invoice_findAll db (default "" patientHN)) ;
          await ids <- lift (invoicedTreatmentIds invoices []) ;
          if (0 <? Z.of_nat (length ids)) then
            pure (mkWhere (where_patientHN whereClause) (Some ids))
          else pure whereClause
        else pure whereClause) ;
     await treatments <-
       query (CTreatmentFindAll whereClause) (Treatment_findAll db whereClause) ;
     pure (Send 200 treatments))
    (fun error =>
       await _ <- log "error" "Error fetching treatments"
                    [("error", JString (message error))] ;
       pure (Send 500 (message_body "Failed to fetch treatments"))).

(** [exports.getTreatmentDetails]; [id] is [req.params.id]. *)
Definition getTreatmentDetails (db : Models) (id : string) : Ctl Response :=
  try_catch
    (await treatment <- query (CTreatmentFindByPk id) (Treatment_findByPk db id) ;
     if negb (truthy treatment) then
       pure (Send 404 (message_body "Treatment not found"))
     else pure (Send 200 treatment))
    (fun error =>
       await _ <- log "error" "Error fetching treatment details"
                    [("id", JString id); ("error", JString (message error))] ;
       pure (Send 500 (message_body "Failed to fetch treatment details"))).

(** [exports.createTreatment]; [user] is [req.user], [body] the fields read
    out of [req.body], [NODE_ENV] is [process.env.NODE_ENV]. *)
Definition createTreatment (db : Models) (NODE_ENV : option string)
    (user : option Payload) (body : TreatmentFields) : Ctl Response :=
  try_catch
    (let patientHN := f_patientHN body in
     let performedBy := f_performedBy body in
     await userId <- lift (user_claim user "userId" userId) ;
     await _ <- log "info" "Treatment creation initiated"
                  [("userId", userId); ("patientHN", patientHN)] ;
     await patient <- query (CPatientFindOne patientHN) (Patient_findOne db patientHN) ;
     if negb (truthy patient) then
       pure (Send 404 (message_body "Patient not found"))
     else
       let dentistId := or_else performedBy userId in
       await dentist <- query (CUserFindByPk dentistId) (User_findByPk db dentistId) ;
       if negb (truthy dentist) then
         pure (Send 400 (message_body "Invalid dentist/user ID for performedBy field"))
       else
         let treatmentData :=
           mkFields patientHN
             (or_else (f_appointmentId body) JNull)
             (f_treatmentDate body)
             (or_else (f_procedureCodes body) (JArray []))
             (f_description body)
             (or_else (f_toothNumbers body) (JArray []))
             dentistId
             (f_clinicalNotes body)
             (or_else (f_estimatedCost body) (JNumber 0))
             (or_else (f_status body) (JString "planned")) in
         await treatment <-
           query (CTreatmentCreate treatmentData) (Treatment_create db treatmentData) ;
         await treatmentId <- lift (get_prop treatment "id") ;
         await _ <- log "info" "Treatment created"
                      [("treatmentId", treatmentId); ("patientHN", patientHN);
                       ("performedBy", dentistId)] ;
         pure (Send 201 treatment))
    (fun error =>
       await _ <- log "error" "Error creating treatment"
                    [("error", JString (message error))] ;
       pure (Send 500
               (JObject
                  [("message", JString "Failed to create treatment");
                   ("details",
                    if bool_decide (NODE_ENV = Some "development")
                    then JString (message error) else JUndefined)]))).

(** [exports.updateTreatment]: only an admin, a manager or the user who
    performed the treatment may modify it. *)
Definition updateTreatment (db : Models) (id : string) (user : option Payload)
    (body : TreatmentFields) : Ctl Response :=
  try_catch
    (await treatment <- query (CTreatmentFindByPk id) (Treatment_findByPk db id) ;
     if negb (truthy treatment) then
       pure (Send 404 (message_body "Treatment not found"))
     else
       await userId <- lift (user_claim user "userId" userId) ;
       await performedBy <- lift (get_prop treatment "performedBy") ;
       let isCreator := strict_eq userId performedBy in
       await userRole <- lift (user_claim user "role" role) ;
       let isAdmin := strict_eq userRole (JString "admin") in
       let isManager := strict_eq userRole (JString "manager") in
       if negb isCreator && negb isAdmin && negb isManager then
         await _ <- log "warn" "Unauthorized treatment update attempt"
                      [("userId", userId); ("userRole", userRole);
                       ("treatmentId", JString id);
                       ("originalPerformedBy", performedBy)] ;
         pure (Send 403 (message_body "Unauthorized to edit this treatment"))
       else
         let data :=
           mkUpdate (f_treatmentDate body) (f_procedureCodes body)
             (f_description body) (f_toothNumbers body) (f_performedBy body)
             (f_clinicalNotes body) (f_estimatedCost body) (f_status body) in
         await updated <-
           query (CTreatmentUpdate treatment data) (Treatment_update db treatment data) ;
         await _ <- log "info" "Treatment updated"
                      [("treatmentId", JString id); ("updatedBy", userId)] ;
         pure (Send 200 updated))
    (fun error =>
       await _ <- log "error" "Error updating treatment"
                    [("id", JString id); ("error", JString (message error))] ;
       pure (Send 500 (message_body "Failed to update treatment"))).

(** A controller starts with nothing logged and no call made. *)
Definition fresh : World := mkWorld [] [].

(** A database with one treatment, performed by [u-3]. *)
Definition sample_models : Models :=
  mkModels
    (fun _ => Ok [])
    (fun _ => Ok (JArray []))
    (fun id => if String.eqb id "t-1"
               then Ok (JObject [("id", JString "t-1"); ("performedBy", JString "u-3")])
               else Ok JNull)
    (fun hn => if strict_eq hn (JString "HN-001")
               then Ok (JObject [("hn", JString "HN-001")]) else Ok JNull)
    (fun id => if strict_eq id (JString "u-3")
               then Ok (JObject [("id", JString "u-3")]) else Ok JNull)
    (fun data => Ok (JObject [("id", JString "t-2");
                              ("performedBy", f_performedBy data)]))
    (fun row _ => Ok row).

Definition empty_body : TreatmentFields :=
  mkFields JUndefined JUndefined JUndefined JUndefined JUndefined
    JUndefined JUndefined JUndefined JUndefined JUndefined.


(** ** The upload middleware: which files are taken *)

(** The regular expressions the file filter needs: a character, a
    sequence, an alternative, the empty expression and the end of input
    ([$]). *)
Inductive regex : Type :=
| RChar (c : ascii)
| RSeq (r1 r2 : regex)
| RAlt (r1 r2 : regex)
| REmpty
| REnd.

(** Case folding of the [i] flag: the upper case of the letters [a-z].
    A character outside ASCII never folds onto an ASCII one, and the
    pattern below has ASCII characters only, so such a character is left
    alone here. *)
Definition canonicalize (c : ascii) : ascii :=
  let n := nat_of_ascii c in
  if ((97 <=? n) && (n <=? 122))%nat then ascii_of_nat (n - 32) else c.

(** [r] matched at the start of [s], the rest being left to [k]. *)
Fixpoint matches (r : regex) (s : string) (k : string -> bool) : bool :=
  match r with
  | RChar c =>
      match s with
      | String a rest =>
          if Ascii.eqb (canonicalize a) (canonicalize c) then k rest else false
      | EmptyString => false
      end
  | RSeq r1 r2 => matches r1 s (fun rest => matches r2 rest k)
  | RAlt r1 r2 => matches r1 s k || matches r2 s k
  | REmpty => k s
  | REnd =>
      match s with
      | EmptyString => k s
      | String _ _ => false
      end
  end.

(** [s.match(r)] is not [null]: [r] matches at some position of [s]. *)
Fixpoint regex_found (r : regex) (s : string) : bool :=
  matches r s (fun _ => true) ||
  match s with
  | EmptyString => false
  | String _ rest => regex_found r rest
  end.

Fixpoint literal (word : string) : regex :=
  match word with
  | EmptyString => REmpty
  | String c rest => RSeq (RChar c) (literal rest)
  end.

Definition ALLOWED_MIMETYPES : list string :=
  ["image/jpeg"; "image/png"; "image/gif"; "image/webp"].

(** [/\.(jpg|jpeg|png|gif|webp)$/i] *)
Definition ALLOWED_EXTENSIONS : regex :=
  RSeq (RChar ".")
    (RSeq (RAlt (literal "jpg")
             (RAlt (literal "jpeg")
                (RAlt (literal "png") (RAlt (literal "gif") (literal "webp")))))
       REnd).

(** [fileFilter(req, file, cb)]: [cb(null, true)] is [Ok true],
    [cb(new Error(text), false)] throws. *)
Definition fileFilter (mimetype originalname : string) : Result bool :=
  if negb (bool_decide (mimetype ∈ ALLOWED_MIMETYPES)) then
    Throw (mkError "Error"
             "Invalid file type. Only JPEG, PNG, GIF, and WebP are allowed.")
  else if negb (regex_found ALLOWED_EXTENSIONS originalname) then
    Throw (mkError "Error"
             "Invalid file extension. Only .jpg, .jpeg, .png, .gif, .webp are allowed.")
  else Ok true.

(** What a match is: [Match r s rest] when [r] matches a prefix of [s] and
    leaves [rest]. *)
Inductive Match : regex -> string -> string -> Prop :=
| MChar a c rest :
    canonicalize a = canonicalize c -> Match (RChar c) (String a rest) rest
| MSeq r1 r2 s mid rest :
    Match r1 s mid -> Match r2 mid rest -> Match (RSeq r1 r2) s rest
| MAltL r1 r2 s rest : Match r1 s rest -> Match (RAlt r1 r2) s rest
| MAltR r1 r2 s rest : Match r2 s rest -> Match (RAlt r1 r2) s rest
| MEmpty s : Match REmpty s s
| MEnd : Match REnd EmptyString EmptyString.

(** ASCII lower case of a character and of a string. *)
Definition lower (c : ascii) : ascii :=
  let n := nat_of_ascii c in
  if ((65 <=? n) && (n <=? 90))%nat then ascii_of_nat (n + 32) else c.

Fixpoint lower_string (s : string) : string :=
  match s with
  | EmptyString => EmptyString
  | String c rest => String (lower c) (lower_string rest)
  end.

Definition image_extensions : list string := ["jpg"; "jpeg"; "png"; "gif"; "webp"].

(** * Properties *)

(** ** Role table *)

Lemma own_lookup_closed (r : string) :
  closed_role r ->
  exists z, ROLE_HIERARCHY !! r = Some (JS.Num (JS.Fin z)) /\ 1 <= z <= 5.
Proof.
  intros [-> | [-> | [-> | [-> | ->]]]];
    [exists 5 | exists 4 | exists 3 | exists 2 | exists 1];
    (split; [vm_compute; reflexivity | lia]).
Qed.

Lemma own_lookup_other (r : string) :
  ~ closed_role r -> ROLE_HIERARCHY !! r = None.
Proof.
  intros Hr. unfold ROLE_HIERARCHY, closed_role in *.
  rewrite !lookup_insert_ne by (intros <-; tauto).
  apply lookup_singleton_ne. intros <-; tauto.
Qed.

Lemma prototype_values (k : string) (v : JS.value) :
  JS.Object_prototype !! k = Some v ->
  JS.truthy v = true /\ JS.ToNumber v = JS.NaN.
Proof.
  intros Hk.
  assert (Hall : map_Forall (fun _ w => JS.truthy w = true /\ JS.ToNumber w = JS.NaN)
                   JS.Object_prototype).
  { unfold JS.Object_prototype. simpl.
    repeat (apply map_Forall_insert_2; [split; reflexivity |]).
    apply map_Forall_empty. }
  exact (Hall k v Hk).
Qed.

Lemma rank_closed (r : string) :
  closed_role r -> exists z, rank r = JS.Num (JS.Fin z) /\ 1 <= z <= 5.
Proof.
  intros Hr. destruct (own_lookup_closed r Hr) as (z & Hz & Hb).
  exists z. split; [| exact Hb].
  unfold rank, JS.get, JS.or. rewrite Hz. simpl.
  destruct (Z.eqb_spec z 0); [lia | reflexivity].
Qed.

Lemma rank_plain (r : string) :
  ~ closed_role r -> plain_name r -> rank r = JS.Num (JS.Fin 0).
Proof.
  intros Hr Hp. unfold rank, JS.get.
  rewrite (own_lookup_other r Hr), Hp. reflexivity.
Qed.

Lemma rank_inherited (r : string) (v : JS.value) :
  ~ closed_role r -> JS.Object_prototype !! r = Some v ->
  rank r = v /\ JS.ToNumber v = JS.NaN.
Proof.
  intros Hr Hv. destruct (prototype_values r v Hv) as [Ht Hn].
  split; [| exact Hn].
  unfold rank, JS.get, JS.or.
  rewrite (own_lookup_other r Hr), Hv. simpl. rewrite Ht. reflexivity.
Qed.

Lemma closed_role_plain (r : string) : closed_role r -> plain_name r.
Proof.
  intros [-> | [-> | [-> | [-> | ->]]]]; vm_compute; reflexivity.
Qed.

(** Away from the inherited names the rank is a number of [0..5], and it is
    [0] exactly on the names outside the closed set. *)
Lemma rank_numeric (r : string) :
  plain_name r ->
  exists z, rank r = JS.Num (JS.Fin z) /\ 0 <= z <= 5 /\ (z = 0 <-> ~ closed_role r).
Proof.
  intros Hp. destruct (decide (closed_role r)) as [Hc | Hc].
  - destruct (rank_closed r Hc) as (z & Hz & Hb). exists z.
    split; [exact Hz |]. split; [lia |]. split; [lia | tauto].
  - exists 0. split; [apply rank_plain; assumption |]. split; [lia | tauto].
Qed.

Lemma includes_spec (allowedRoles : list string) (userRole : option string) :
  includes allowedRoles userRole = true <->
  exists r, userRole = Some r /\ r ∈ allowedRoles.
Proof.
  unfold includes. destruct userRole as [r |].
  - rewrite bool_decide_eq_true. split.
    + intros H. exists r. auto.
    + intros (r' & [= <-] & H). exact H.
  - split; [discriminate | intros (r & [=] & _)].
Qed.

(** [Math.min] over numeric ranks is their least element. *)
Lemma requiredLevel_minimum (allowedRoles : list string) :
  allowedRoles <> [] ->
  Forall plain_name allowedRoles ->
  exists m,
    requiredLevel allowedRoles = JS.Fin m /\
    (exists r, r ∈ allowedRoles /\ rank r = JS.Num (JS.Fin m)) /\
    (forall r, r ∈ allowedRoles -> exists k, rank r = JS.Num (JS.Fin k) /\ m <= k).
Proof.
  induction allowedRoles as [| a l IH]; [congruence |].
  intros _ Hall. apply Forall_cons in Hall as [Ha Hl].
  destruct (rank_numeric a Ha) as (za & Hza & _).
  unfold requiredLevel. simpl. rewrite Hza. simpl.
  destruct l as [| b l'].
  - simpl. exists za. split; [reflexivity |]. split.
    + exists a. split; [apply list_elem_of_here | exact Hza].
    + intros r Hr. apply list_elem_of_singleton in Hr as ->.
      exists za. split; [exact Hza | lia].
  - destruct (IH ltac:(congruence) Hl) as (m & Hm & (rm & Hrm & Hrk) & Hlow).
    unfold requiredLevel in Hm. rewrite Hm.
    exists (Z.min za m). split; [reflexivity |]. split.
    + destruct (Z.min_spec za m) as [[_ ->] | [_ ->]].
      * exists a. split; [apply list_elem_of_here | exact Hza].
      * exists rm. split; [apply list_elem_of_further; exact Hrm | exact Hrk].
    + intros r Hr. apply elem_of_cons in Hr as [-> | Hr].
      * exists za. split; [exact Hza | lia].
      * destruct (Hlow r Hr) as (k & Hk & Hle). exists k. split; [exact Hk | lia].
Qed.

(** ** Strict policies *)

(** C1.  Under a strict policy an authenticated principal is allowed exactly
    when its role is a member of [allowedRoles], and is otherwise denied
    with the strict-mismatch reply; [admin] against [{patient}] is denied. *)
Theorem strict_exact_membership
    (allowedRoles : list string) (now : string) (req : Request) (u : Payload) :
  user req = Some u ->
  let h := authorizeRole allowedRoles (mkOptions (Some true)) now req in
  (reply h = Verdict.Allow <-> exists r, role u = Some r /\ r ∈ allowedRoles) /\
  (reply h <> Verdict.Allow -> reply h = Verdict.Deny_StrictRoleMismatch) /\
  (allowedRoles = ["patient"] -> role u = Some "admin" ->
   reply h = Verdict.Deny_StrictRoleMismatch).
Proof.
  intros Hu h. subst h. unfold authorizeRole. rewrite Hu. simpl.
  destruct (includes allowedRoles (role u)) eqn:Hin; simpl.
  - split; [| split].
    + split; [intros _; apply includes_spec; exact Hin | reflexivity].
    + intros H. exfalso. apply H. reflexivity.
    + intros -> Hr. rewrite Hr in Hin. vm_compute in Hin. discriminate.
  - split; [| split].
    + split; [discriminate |].
      intros H. apply includes_spec in H. congruence.
    + reflexivity.
    + reflexivity.
Qed.

Lemma strict_exact_membership_witness :
  reply (authorizeRole ["patient"] (mkOptions (Some true)) "2024-05-01T08:00:00.000Z"
           (principal "admin"))
  = Verdict.Deny_StrictRoleMismatch.
Proof.
  apply (strict_exact_membership ["patient"] "2024-05-01T08:00:00.000Z"
           (principal "admin")
           (mkPayload (Some "u-17") None (Some "kim") (Some "admin") None None));
    reflexivity.
Defined.

(** ** Non-strict policies *)



(** ** Names outside the closed role set *)

Lemma not_closed_not_included (allowedRoles : list string) (r : string) :
  Forall closed_role allowedRoles -> ~ closed_role r ->
  includes allowedRoles (Some r) = false.
Proof.
  intros Hall Hr. unfold includes. apply bool_decide_eq_false. intros Hin.
  apply Hr. rewrite Forall_forall in Hall. apply Hall. exact Hin.
Qed.

(** The level a policy over closed roles requires is at least 1, or
    [+Infinity] when the policy names no role. *)
Lemma requiredLevel_closed (allowedRoles : list string) :
  Forall closed_role allowedRoles ->
  requiredLevel allowedRoles = JS.Infinity \/
  exists m, requiredLevel allowedRoles = JS.Fin m /\ 1 <= m.
Proof.
  intros Hall. destruct allowedRoles as [| a l]; [left; reflexivity | right].
  assert (Hp : Forall plain_name (a :: l)).
  { eapply Forall_impl; [exact Hall | apply closed_role_plain]. }
  destruct (requiredLevel_minimum (a :: l) ltac:(congruence) Hp)
    as (m & Hm & (rm & Hrm & Hrk) & _).
  exists m. split; [exact Hm |].
  rewrite Forall_forall in Hall.
  destruct (rank_closed rm (Hall rm Hrm)) as (z & Hz & Hb).
  rewrite Hz in Hrk. injection Hrk as ->. lia.
Qed.

(** The level of a name outside the closed set never reaches a level of 1
    or more: it is 0, or not a number at all. *)
Lemma unrecognized_below (r : string) (lvl : JS.number) :
  ~ closed_role r ->
  lvl = JS.Infinity \/ (exists m, lvl = JS.Fin m /\ 1 <= m) ->
  JS.ge (rank r) (JS.Num lvl) = false.
Proof.
  intros Hr Hl. unfold JS.ge.
  destruct (JS.Object_prototype !! r) as [v |] eqn:Hp.
  - destruct (rank_inherited r v Hr Hp) as [-> ->]. reflexivity.
  - rewrite (rank_plain r Hr Hp). simpl.
    destruct Hl as [-> | (m & -> & Hm)]; simpl; [reflexivity |].
    apply Z.leb_gt. lia.
Qed.

(** Fail-closed part of the role invariant: a principal whose role is
    outside the closed set is denied by every non-strict policy over closed
    roles. *)
Theorem unrecognized_role_denied
    (allowedRoles : list string) (options : Options) (now : string)
    (req : Request) (u : Payload) (r : string) :
  user req = Some u -> role u = Some r ->
  ~ closed_role r ->
  Forall closed_role allowedRoles ->
  default false (strict options) = false ->
  reply (authorizeRole allowedRoles options now req) = Verdict.Deny_InsufficientRole.
Proof.
  intros Hu Hrole Hr Hall Hs. unfold authorizeRole.
  rewrite Hu, Hs, Hrole, (not_closed_not_included allowedRoles r Hall Hr). simpl.
  rewrite (unrecognized_below r _ Hr (requiredLevel_closed allowedRoles Hall)).
  reflexivity.
Qed.

(** Rank 0 for the names outside the closed set that [Object.prototype]
    does not define. *)
Theorem unrecognized_plain_rank_zero (r : string) :
  ~ closed_role r -> plain_name r -> rank r = JS.Num (JS.Fin 0).
Proof. apply rank_plain. Qed.

(** C3 (failing input).  The role string [constructor] is outside the
    closed set, yet its rank is not 0: the table lookup finds the inherited
    [Object.prototype.constructor], a function, which [|| 0] keeps.  The
    principal is then not treated as one of rank 0: under the non-strict
    policy [{guest}], whose required level is 0, the rank-0 role [visitor]
    passes and [constructor] is denied. *)
Theorem constructor_role_rank :
  ~ closed_role "constructor" /\
  rank "constructor" = JS.Function_ "Object" /\
  rank "constructor" <> JS.Num (JS.Fin 0) /\
  rank "visitor" = JS.Num (JS.Fin 0) /\
  requiredLevel ["guest"] = JS.Fin 0 /\
  reply (authorizeRole ["guest"] (mkOptions None) "2024-05-01T08:00:00.000Z"
           (principal "visitor")) = Verdict.Allow /\
  reply (authorizeRole ["guest"] (mkOptions None) "2024-05-01T08:00:00.000Z"
           (principal "constructor")) = Verdict.Deny_InsufficientRole.
Proof.
  split.
  - unfold closed_role. intros [H | [H | [H | [H | H]]]]; discriminate H.
  - repeat split; try (vm_compute; reflexivity). discriminate.
Qed.

(** A policy that names a role outside the closed set, with no inherited
    name near it, requires level 0 and lets every principal through whose
    role is not an inherited name either. *)
Theorem misspelled_role_fails_open
    (allowedRoles : list string) (options : Options) (now : string)
    (req : Request) (u : Payload) :
  user req = Some u ->
  default false (strict options) = false ->
  (exists r, r ∈ allowedRoles /\ ~ closed_role r) ->
  Forall plain_name allowedRoles ->
  plain_name (role_key (role u)) ->
  requiredLevel allowedRoles = JS.Fin 0 /\
  reply (authorizeRole allowedRoles options now req) = Verdict.Allow.
Proof.
  intros Hu Hs (r & Hr & Hnc) Hall Hp.
  assert (Hne : allowedRoles <> []).
  { intros ->. apply elem_of_nil in Hr. exact Hr. }
  destruct (requiredLevel_minimum allowedRoles Hne Hall)
    as (m & Hm & (rm & Hrm & Hrk) & Hlow).
  assert (Hm0 : m = 0).
  { destruct (Hlow r Hr) as (k & Hk & Hle).
    rewrite Forall_forall in Hall.
    rewrite (rank_plain r Hnc (Hall r Hr)) in Hk. injection Hk as <-.
    destruct (rank_numeric rm (Hall rm Hrm)) as (z & Hz & Hb & _).
    rewrite Hz in Hrk. injection Hrk as ->. lia. }
  subst m. split; [exact Hm |].
  unfold authorizeRole. rewrite Hu, Hs. simpl.
  destruct (includes allowedRoles (role u)); [reflexivity |].
  rewrite Hm. destruct (rank_numeric _ Hp) as (z & Hz & Hb & _).
  rewrite Hz. unfold JS.ge. simpl.
  destruct (Z.leb_spec 0 z); [reflexivity | lia].
Qed.

Lemma misspelled_role_fails_open_witness :
  requiredLevel ["admin"; "manger"] = JS.Fin 0 /\
  reply (authorizeRole ["admin"; "manger"] (mkOptions None)
           "2024-05-01T08:00:00.000Z" (principal "patient")) = Verdict.Allow.
Proof.
  apply (misspelled_role_fails_open ["admin"; "manger"] (mkOptions None)
           "2024-05-01T08:00:00.000Z" (principal "patient")
           (mkPayload (Some "u-17") None (Some "kim") (Some "patient") None None)).
  - reflexivity.
  - reflexivity.
  - exists "manger". split.
    + apply list_elem_of_further, list_elem_of_here.
    + unfold closed_role. intros [H | [H | [H | [H | H]]]]; discriminate H.
  - repeat constructor.
  - reflexivity.
Defined.

(** C4 (failing input).  A non-strict policy that names [constructor], a
    name outside the closed set, requires [NaN] and not 0: [admin] is
    denied under it.  And under [{guest}], whose required level is 0, a
    principal of role [toString] is denied. *)
Theorem inherited_name_policy_closed :
  ~ closed_role "constructor" /\
  requiredLevel ["constructor"] = JS.NaN /\
  reply (authorizeRole ["constructor"] (mkOptions None)
           "2024-05-01T08:00:00.000Z" (principal "admin"))
  = Verdict.Deny_InsufficientRole /\
  requiredLevel ["guest"] = JS.Fin 0 /\
  reply (authorizeRole ["guest"] (mkOptions None)
           "2024-05-01T08:00:00.000Z" (principal "toString"))
  = Verdict.Deny_InsufficientRole.
Proof.
  split.
  - unfold closed_role. intros [H | [H | [H | [H | H]]]]; discriminate H.
  - repeat split; vm_compute; reflexivity.
Qed.

(** ** Secure random integers and the shuffle *)

Lemma secureRandomInt_run (max : Z) (s : Entropy) :
  0 < max ->
  secureRandomInt max s =
    (Ok (source s (length (asked s)) mod max),
     mkEntropy (source s) (asked s ++ [max])).
Proof.
  intros Hmax. unfold secureRandomInt, randomInt.
  destruct (Z.leb_spec max 0); [lia | reflexivity].
Qed.

(** Every value of [[0, max)] is a possible draw. *)
Lemma secureRandomInt_any (max k : Z) (history : list Z) :
  0 <= k < max ->
  fst (secureRandomInt max (mkEntropy (fun _ => k) history)) = Ok k.
Proof.
  intros Hk. rewrite secureRandomInt_run by lia. cbn [fst source].
  rewrite Z.mod_small by lia. reflexivity.
Qed.

Lemma swap_Permutation {A} (arr : list A) (i j : nat) : swap arr i j ≡ₚ arr.
Proof.
  unfold swap. destruct (arr !! j) as [aj |] eqn:Hj; [| reflexivity].
  destruct (arr !! i) as [ai |] eqn:Hi; [| reflexivity].
  exact (Permutation_insert_swap arr i j ai aj Hi Hj).
Qed.

(** Inside the array the swap is the pair of writes of the source. *)
Lemma swap_in_range {A} (arr : list A) (i j : nat) :
  (i < length arr)%nat -> (j <= i)%nat ->
  exists ai aj,
    arr !! i = Some ai /\ arr !! j = Some aj /\
    swap arr i j = <[j:=ai]> (<[i:=aj]> arr).
Proof.
  intros Hi Hj.
  destruct (lookup_lt_is_Some_2 arr i Hi) as [ai Hai].
  destruct (lookup_lt_is_Some_2 arr j ltac:(lia)) as [aj Haj].
  exists ai, aj. unfold swap. rewrite Hai, Haj. auto.
Qed.

Lemma bounds_from_seq (i : nat) :
  bounds_from i = map (fun k => Z.of_nat k + 1) (reverse (seq 1 i)).
Proof.
  induction i as [| i IH]; [reflexivity |].
  rewrite seq_S, reverse_app. simpl. rewrite IH. reflexivity.
Qed.

Lemma shuffle_loop_run {A} (i : nat) (arr : list A) (s : Entropy) :
  exists arr',
    shuffle_loop i arr s =
      (Ok arr', mkEntropy (source s) (asked s ++ bounds_from i)) /\
    arr' ≡ₚ arr.
Proof.
  revert arr s. induction i as [| i IH]; intros arr s.
  - exists arr. simpl. unfold ret. rewrite app_nil_r.
    destruct s; split; reflexivity.
  - cbn [shuffle_loop]. unfold bind.
    rewrite secureRandomInt_run by lia.
    set (j := Z.to_nat (source s (length (asked s)) mod (Z.of_nat (S i) + 1))).
    destruct (IH (swap arr (S i) j)
                (mkEntropy (source s) (asked s ++ [Z.of_nat (S i) + 1])))
      as (arr' & Hrun & Hperm).
    exists arr'. rewrite Hrun. cbn [source asked bounds_from].
    rewrite <- app_assoc. split; [reflexivity |].
    rewrite Hperm. apply swap_Permutation.
Qed.

Lemma exchange_lookup {A} (seq : list A) (i j k : nat) :
  exchange seq i j !! k
  = (fun x => if Nat.eqb k i then default x (seq !! j)
              else if Nat.eqb k j then default x (seq !! i)
              else x) <$> seq !! k.
Proof. unfold exchange. apply list_lookup_imap. Qed.

(** The exchange read position by position, inside the sequence. *)
Lemma exchange_spec {A} (seq : list A) (i j : nat) :
  (i < length seq)%nat -> (j < length seq)%nat ->
  exchange seq i j !! i = seq !! j /\
  exchange seq i j !! j = seq !! i /\
  (forall k, k <> i -> k <> j -> exchange seq i j !! k = seq !! k).
Proof.
  intros Hi Hj.
  destruct (lookup_lt_is_Some_2 seq i Hi) as [x Hx].
  destruct (lookup_lt_is_Some_2 seq j Hj) as [y Hy].
  repeat split.
  - rewrite exchange_lookup, Hx. cbn. rewrite Nat.eqb_refl, Hy. reflexivity.
  - rewrite exchange_lookup, Hy. cbn. rewrite Nat.eqb_refl.
    destruct (Nat.eqb_spec j i) as [-> | _]; rewrite Hx; [congruence | reflexivity].
  - intros k Hki Hkj. rewrite exchange_lookup.
    destruct (Nat.eqb_spec k i); [contradiction |].
    destruct (Nat.eqb_spec k j); [contradiction |].
    destruct (seq !! k); reflexivity.
Qed.

(** The two writes of the source are that exchange. *)
Lemma swap_exchange {A} (arr : list A) (i j : nat) :
  swap arr i j = exchange arr i j.
Proof.
  apply list_eq. intros k. rewrite exchange_lookup. unfold swap.
  destruct (arr !! j) as [aj |] eqn:Hj.
  - destruct (arr !! i) as [ai |] eqn:Hi.
    + pose proof (lookup_lt_Some _ _ _ Hi) as Hil.
      pose proof (lookup_lt_Some _ _ _ Hj) as Hjl.
      destruct (Nat.eqb_spec k i) as [-> | Hki].
      * rewrite Hi. cbn.
        destruct (decide (j = i)) as [-> | Hne].
        -- rewrite list_lookup_insert_eq by (rewrite length_insert; exact Hil).
           congruence.
        -- rewrite list_lookup_insert_ne by exact Hne.
           apply list_lookup_insert_eq. exact Hil.
      * destruct (Nat.eqb_spec k j) as [-> | Hkj].
        -- rewrite Hj. cbn.
           apply list_lookup_insert_eq. rewrite length_insert. exact Hjl.
        -- rewrite !list_lookup_insert_ne by congruence.
           destruct (arr !! k); reflexivity.
    + destruct (Nat.eqb_spec k i) as [-> | Hki].
      * rewrite Hi. reflexivity.
      * destruct (Nat.eqb_spec k j); destruct (arr !! k); reflexivity.
  - destruct (Nat.eqb_spec k i) as [-> | Hki].
    + destruct (arr !! i); reflexivity.
    + destruct (Nat.eqb_spec k j) as [-> | Hkj].
      * rewrite Hj. reflexivity.
      * destruct (arr !! k); reflexivity.
Qed.

(** The loop of the source computes the Fisher-Yates of the
    specification, on the draws the generator hands it. *)
Lemma shuffle_loop_fisher_yates {A} (i : nat) (arr : list A) (s : Entropy) :
  shuffle_loop i arr s =
    (Ok (fisher_yates (source s) (length (asked s)) i arr),
     mkEntropy (source s) (asked s ++ bounds_from i)).
Proof.
  revert arr s. induction i as [| i IH]; intros arr s.
  - simpl. unfold ret. rewrite app_nil_r. destruct s; reflexivity.
  - cbn [shuffle_loop fisher_yates bounds_from]. unfold bind.
    rewrite secureRandomInt_run by lia. rewrite IH. cbn [source asked].
    rewrite length_app, Nat.add_1_r, swap_exchange, <- app_assoc. reflexivity.
Qed.

(** The steps from index [i] down leave every position above [i] alone. *)
Lemma fisher_yates_above {A} (draw : nat -> Z) (i : nat) :
  forall (k : nat) (seq : list A) (p : nat),
    (i < p)%nat -> fisher_yates draw k i seq !! p = seq !! p.
Proof.
  induction i as [| i IH]; intros k seq p Hp; [reflexivity |].
  cbn [fisher_yates]. rewrite IH by lia. rewrite exchange_lookup.
  pose proof (Z.mod_pos_bound (draw k) (Z.of_nat (S i) + 1) ltac:(lia)) as Hb.
  destruct (Nat.eqb_spec p (S i)); [lia |].
  destruct (Nat.eqb_spec p (Z.to_nat (draw k mod (Z.of_nat (S i) + 1)))); [lia |].
  destruct (seq !! p); reflexivity.
Qed.

(** The first step settles the last position: it receives the element at
    the partner index drawn with bound [n]. *)
Lemma fisher_yates_last {A} (draw : nat -> Z) (k : nat) (seq : list A) :
  seq <> [] ->
  fisher_yates draw k (length seq - 1) seq !! (length seq - 1)%nat
  = seq !! Z.to_nat (draw k mod Z.of_nat (length seq)).
Proof.
  intros Hne. destruct seq as [| a seq]; [congruence |].
  cbn [length]. rewrite Nat.sub_1_r. cbn [Nat.pred].
  destruct (length seq) as [| i] eqn:Hlen.
  - cbn [fisher_yates]. rewrite Z.mod_1_r. reflexivity.
  - cbn [fisher_yates]. rewrite fisher_yates_above by lia.
    replace (Z.of_nat (S i) + 1) with (Z.of_nat (S (S i))) by lia.
    pose proof (Z.mod_pos_bound (draw k) (Z.of_nat (S (S i))) ltac:(lia)) as Hb.
    apply exchange_spec; simpl; lia.
Qed.

(** C8.  [secureShuffle] returns, for every input and every behaviour of
    the generator, a permutation of its input: same length, same elements
    with the same multiplicities, the output positions being the input
    positions under an injective re-indexing.  The loop asks the generator
    for the bounds [i + 1] for [i] from [n - 1] down to [1], in this order,
    and for nothing else, and it follows Fisher-Yates: at each index [i]
    the value drawn with bound [i + 1] is the partner index the element at
    [i] is exchanged with, so that the output is the Fisher-Yates shuffle
    of the input on the draws of the generator; the last position holds the
    input element at the first partner drawn. *)
Theorem secureShuffle_permutation {A} (array : list A) (s : Entropy) :
  exists arr,
    secureShuffle array s =
      (Ok arr,
       mkEntropy (source s)
         (asked s ++ map (fun i => Z.of_nat i + 1)
                       (reverse (seq 1 (length array - 1))))) /\
    arr ≡ₚ array /\
    length arr = length array /\
    (exists f : nat -> nat, Inj (=) (=) f /\ forall i, arr !! i = array !! f i) /\
    arr = fisher_yates (source s) (length (asked s)) (length array - 1) array /\
    (array <> [] ->
     arr !! (length array - 1)%nat
     = array !! Z.to_nat (source s (length (asked s)) mod Z.of_nat (length array))).
Proof.
  unfold secureShuffle.
  destruct (shuffle_loop_run (length array - 1) array s) as (arr & Hrun & Hperm).
  assert (Harr : arr = fisher_yates (source s) (length (asked s))
                         (length array - 1) array).
  { rewrite shuffle_loop_fisher_yates in Hrun. congruence. }
  exists arr. rewrite <- bounds_from_seq. split; [exact Hrun |].
  split; [exact Hperm |].
  pose proof Hperm as Hperm'.
  apply Permutation_inj in Hperm' as [Hlen Hinj].
  split; [exact Hlen |]. split; [exact Hinj |]. split; [exact Harr |].
  intros Hne. rewrite Harr. apply fisher_yates_last. exact Hne.
Qed.

Lemma shuffle_step {A} (i : nat) (arr : list A) (s : Entropy) :
  let j := Z.to_nat (source s (length (asked s)) mod (Z.of_nat (S i) + 1)) in
  (j <= S i)%nat /\
  shuffle_loop (S i) arr s =
    shuffle_loop i (swap arr (S i) j)
      (mkEntropy (source s) (asked s ++ [Z.of_nat (S i) + 1])).
Proof.
  intros j. split.
  - subst j.
    pose proof (Z.mod_pos_bound (source s (length (asked s))) (Z.of_nat (S i) + 1)).
    lia.
  - cbn [shuffle_loop]. unfold bind. rewrite secureRandomInt_run by lia.
    reflexivity.
Qed.

(** ** Temporary passwords *)

Lemma get_in_class (cls : string) (n : nat) (c : ascii) :
  String.get n cls = Some c -> in_class cls c = true.
Proof.
  unfold in_class. revert n. induction cls as [| a cls IH]; intros n H.
  - destruct n; discriminate.
  - destruct n as [| n]; simpl in *.
    + injection H as ->. rewrite Ascii.eqb_refl. reflexivity.
    + rewrite (IH n H). apply orb_true_r.
Qed.

Lemma get_in_range (cls : string) (n : nat) :
  (n < String.length cls)%nat -> exists c, String.get n cls = Some c.
Proof.
  revert n. induction cls as [| a cls IH]; intros n H; simpl in *; [lia |].
  destruct n as [| n]; [eauto | apply IH; lia].
Qed.

(** [cls.charAt(k)] for an index inside [cls] is one character of [cls]. *)
Lemma charAt_in_class (cls : string) (k : Z) :
  0 <= k < strlen cls ->
  exists c, JS.charAt cls k = String c EmptyString /\ in_class cls c = true.
Proof.
  intros Hk. unfold JS.charAt, strlen in *.
  destruct (Z.ltb_spec k 0); [lia |].
  destruct (get_in_range cls (Z.to_nat k) ltac:(lia)) as [c Hc].
  exists c. rewrite Hc. split; [reflexivity | eapply get_in_class; eassumption].
Qed.

(** A draw indexed into a class, as each [password += cls.charAt(...)]
    does. *)
Lemma draw_in_class (cls : string) (s : Entropy) :
  0 < strlen cls ->
  exists c,
    JS.charAt cls (source s (length (asked s)) mod strlen cls) = String c EmptyString /\
    in_class cls c = true.
Proof.
  intros Hpos. apply charAt_in_class. apply Z.mod_pos_bound. exact Hpos.
Qed.

Lemma append_nil (b : string) : EmptyString +:+ b = b.
Proof. reflexivity. Qed.

Lemma append_cons (c : ascii) (a b : string) :
  String c a +:+ b = String c (a +:+ b).
Proof. reflexivity. Qed.

Lemma append_length (a b : string) :
  String.length (a +:+ b) = (String.length a + String.length b)%nat.
Proof.
  induction a as [| c a IH]; [reflexivity |].
  rewrite append_cons. simpl. rewrite IH. reflexivity.
Qed.

Lemma list_ascii_append (a b : string) :
  list_ascii_of_string (a +:+ b) = (list_ascii_of_string a ++ list_ascii_of_string b)%list.
Proof.
  induction a as [| c a IH]; [reflexivity |].
  rewrite append_cons. simpl. rewrite IH. reflexivity.
Qed.

Lemma string_of_list_length (l : list ascii) :
  String.length (string_of_list_ascii l) = length l.
Proof. induction l as [| c l IH]; simpl; [reflexivity | rewrite IH; reflexivity]. Qed.

Lemma list_of_string_length (s : string) :
  length (list_ascii_of_string s) = String.length s.
Proof. induction s as [| c s IH]; simpl; [reflexivity | rewrite IH; reflexivity]. Qed.

Lemma append_empty (a : string) : a +:+ EmptyString = a.
Proof.
  induction a as [| c a IH]; [reflexivity |].
  rewrite append_cons, IH. reflexivity.
Qed.

Lemma append_snoc (a b : string) (c : ascii) :
  (a +:+ String c EmptyString) +:+ b = a +:+ String c b.
Proof.
  induction a as [| x a IH]; [reflexivity |].
  rewrite !append_cons, IH. reflexivity.
Qed.

Lemma allChars_length : strlen allChars = 70.
Proof. reflexivity. Qed.

(** The fill loop appends [n] characters of [allChars] and asks the bound
    [allChars.length] each time. *)
Lemma fill_rest_run (n : nat) (password : string) (s : Entropy) :
  exists extra,
    fill_rest n password s =
      (Ok (password +:+ extra),
       mkEntropy (source s) (asked s ++ replicate n (strlen allChars))) /\
    String.length extra = n /\
    all_in_class allChars extra = true.
Proof.
  revert password s. induction n as [| n IH]; intros password s.
  - exists EmptyString. simpl. unfold ret. rewrite app_nil_r.
    rewrite append_empty. destruct s. repeat split; reflexivity.
  - cbn [fill_rest]. unfold bind.
    rewrite secureRandomInt_run by (rewrite allChars_length; lia).
    destruct (draw_in_class allChars s ltac:(rewrite allChars_length; lia))
      as (c & Hc & Hin).
    rewrite Hc.
    destruct (IH (password +:+ String c EmptyString)
                (mkEntropy (source s) (asked s ++ [strlen allChars])))
      as (extra & Hrun & Hlen & Hall).
    exists (String c extra). rewrite Hrun. cbn [source asked].
    split; [| split].
    + rewrite append_snoc, <- app_assoc. reflexivity.
    + simpl. rewrite Hlen. reflexivity.
    + unfold all_in_class in *. simpl. rewrite Hin, Hall. reflexivity.
Qed.

Lemma in_class_append_l (a b : string) (c : ascii) :
  in_class a c = true -> in_class (a +:+ b) c = true.
Proof.
  unfold in_class. rewrite list_ascii_append, existsb_app.
  intros ->. reflexivity.
Qed.

Lemma in_class_append_r (a b : string) (c : ascii) :
  in_class b c = true -> in_class (a +:+ b) c = true.
Proof.
  unfold in_class. rewrite list_ascii_append, existsb_app.
  intros ->. apply orb_true_r.
Qed.

Lemma has_class_of_list (cls : string) (l : list ascii) (c : ascii) :
  In c l -> in_class cls c = true ->
  has_class cls (string_of_list_ascii l) = true.
Proof.
  intros Hin Hc. unfold has_class.
  rewrite list_ascii_of_string_of_list_ascii.
  apply existsb_exists. exists c. split; assumption.
Qed.

(** What one call of the generator does, for any requested length and any
    behaviour of the entropy source: it returns a string of
    [4 + max(0, length - 4)] characters, all of [allChars], with one
    character at least of each class. *)
Lemma generateTempPassword_run (len : option Z) (s : Entropy) :
  exists pw s',
    generateTempPassword len s = (Ok pw, s') /\
    String.length pw = (4 + Z.to_nat (default 12 len - 4)%Z)%nat /\
    has_class uppercase pw = true /\
    has_class lowercase pw = true /\
    has_class numbers pw = true /\
    has_class symbols pw = true /\
    all_in_class allChars pw = true.
Proof.
  unfold generateTempPassword, bind.
  rewrite secureRandomInt_run by reflexivity.
  destruct (draw_in_class uppercase s ltac:(reflexivity)) as (c1 & -> & I1).
  set (s1 := mkEntropy _ _).
  rewrite (secureRandomInt_run _ s1) by reflexivity.
  destruct (draw_in_class lowercase s1 ltac:(reflexivity)) as (c2 & -> & I2).
  set (s2 := mkEntropy _ _).
  rewrite (secureRandomInt_run _ s2) by reflexivity.
  destruct (draw_in_class numbers s2 ltac:(reflexivity)) as (c3 & -> & I3).
  set (s3 := mkEntropy _ _).
  rewrite (secureRandomInt_run _ s3) by reflexivity.
  destruct (draw_in_class symbols s3 ltac:(reflexivity)) as (c4 & -> & I4).
  set (s4 := mkEntropy _ _).
  repeat first [rewrite append_nil | rewrite append_cons].
  destruct (fill_rest_run (Z.to_nat (default 12 len - 4))
              (String c1 (String c2 (String c3 (String c4 EmptyString)))) s4)
    as (extra & -> & Hlen & Hall).
  repeat first [rewrite append_nil | rewrite append_cons].
  unfold secureShuffle.
  set (pw0 := String c1 (String c2 (String c3 (String c4 extra)))).
  destruct (shuffle_loop_run (length (list_ascii_of_string pw0) - 1)
              (list_ascii_of_string pw0)
              (mkEntropy (source s4)
                 (asked s4 ++ replicate (Z.to_nat (default 12 len - 4)) (strlen allChars))))
    as (arr & -> & Hperm).
  unfold ret. eexists _, _. split; [reflexivity |].
  assert (Hin : forall c, In c (list_ascii_of_string pw0) -> In c arr).
  { intros c Hc. eapply Permutation_in; [symmetry; exact Hperm | exact Hc]. }
  split; [| split; [| split; [| split; [| split]]]].
  - rewrite string_of_list_length, (Permutation_length Hperm), list_of_string_length.
    subst pw0. simpl. rewrite Hlen. reflexivity.
  - apply (has_class_of_list _ _ c1); [apply Hin; subst pw0; simpl; tauto | exact I1].
  - apply (has_class_of_list _ _ c2); [apply Hin; subst pw0; simpl; tauto | exact I2].
  - apply (has_class_of_list _ _ c3); [apply Hin; subst pw0; simpl; tauto | exact I3].
  - apply (has_class_of_list _ _ c4); [apply Hin; subst pw0; simpl; tauto | exact I4].
  - unfold all_in_class. rewrite list_ascii_of_string_of_list_ascii.
    apply forallb_forall. intros c Hc.
    apply (Permutation_in _ Hperm) in Hc. subst pw0. simpl in Hc.
    unfold all_in_class in Hall. rewrite forallb_forall in Hall.
    unfold allChars.
    destruct Hc as [<- | [<- | [<- | [<- | Hc]]]].
    + apply in_class_append_l. exact I1.
    + apply in_class_append_r, in_class_append_l. exact I2.
    + apply in_class_append_r, in_class_append_r, in_class_append_l. exact I3.
    + apply in_class_append_r, in_class_append_r, in_class_append_r. exact I4.
    + apply Hall. exact Hc.
Qed.

(** C7.  For every length [n] of [[4, 128]] the generator returns a string
    of exactly [n] characters with at least one uppercase letter, one
    lowercase letter, one digit and one symbol of [!@#$%^&*], every
    character of it being of one of these four classes. *)
Theorem generateTempPassword_composition (n : Z) (s : Entropy) :
  4 <= n <= 128 ->
  exists pw s',
    generateTempPassword (Some n) s = (Ok pw, s') /\
    strlen pw = n /\
    has_class uppercase pw = true /\
    has_class lowercase pw = true /\
    has_class numbers pw = true /\
    has_class symbols pw = true /\
    all_in_class (uppercase +:+ lowercase +:+ numbers +:+ symbols) pw = true.
Proof.
  intros Hn.
  destruct (generateTempPassword_run (Some n) s)
    as (pw & s' & Hrun & Hlen & Hu & Hl & Hd & Hs & Hall).
  exists pw, s'. split; [exact Hrun |]. split; [| tauto].
  unfold strlen. rewrite Hlen. simpl. lia.
Qed.

Lemma generateTempPassword_composition_witness :
  exists pw s',
    generateTempPassword (Some 12) sample_entropy = (Ok pw, s') /\
    strlen pw = 12 /\
    has_class uppercase pw = true /\
    has_class lowercase pw = true /\
    has_class numbers pw = true /\
    has_class symbols pw = true /\
    all_in_class (uppercase +:+ lowercase +:+ numbers +:+ symbols) pw = true.
Proof.
  apply (generateTempPassword_composition 12 sample_entropy). lia.
Defined.

(** C6 (counterexample).  Asked for 2 characters, fewer than the four
    classes, the generator throws nothing: it returns a string, of four
    characters. *)
Lemma generateTempPassword_short_returns :
  fst (generateTempPassword (Some 2) sample_entropy) = Ok "5vL$" /\
  (forall e, fst (generateTempPassword (Some 2) sample_entropy) <> Throw e).
Proof.
  assert (H : fst (generateTempPassword (Some 2) sample_entropy) = Ok "5vL$")
    by (vm_compute; reflexivity).
  split; [exact H |]. intros e. rewrite H. discriminate.
Qed.

(** C6 (amended).  The generator validates no length: for every length
    below the number of classes, as for any other, the call returns a
    string and throws nothing, and no guaranteed class is dropped from
    it. *)
Theorem generateTempPassword_no_length_error (n : Z) (s : Entropy) :
  n < 4 ->
  exists pw s',
    generateTempPassword (Some n) s = (Ok pw, s') /\
    has_class uppercase pw = true /\
    has_class lowercase pw = true /\
    has_class numbers pw = true /\
    has_class symbols pw = true.
Proof.
  intros _.
  destruct (generateTempPassword_run (Some n) s)
    as (pw & s' & Hrun & _ & Hu & Hl & Hd & Hs & _).
  exists pw, s'. tauto.
Qed.

Lemma generateTempPassword_no_length_error_witness :
  exists pw s',
    generateTempPassword (Some 2) sample_entropy = (Ok pw, s') /\
    has_class uppercase pw = true /\
    has_class lowercase pw = true /\
    has_class numbers pw = true /\
    has_class symbols pw = true.
Proof.
  apply (generateTempPassword_no_length_error 2 sample_entropy). lia.
Defined.

(** ** Token verification: the presence check *)

Lemma split_no_space (token : string) :
  no_space token = true -> JS.split " " token = [token].
Proof.
  unfold no_space. induction token as [| c t IH]; [reflexivity |].
  simpl. intros H. apply andb_prop in H as [Hc Ht].
  apply negb_true_iff in Hc. rewrite Hc, (IH Ht). reflexivity.
Qed.

Lemma split_first_segment (token : string) :
  exists w ws, JS.split " " token = w :: ws.
Proof.
  induction token as [| c t (w & ws & IH)]; simpl; [eauto |].
  destruct (Ascii.eqb c " "); [eauto |]. rewrite IH. eauto.
Qed.

(** The token the middleware reads out of [Bearer <token>...] is the first
    space-separated segment after the scheme marker. *)
Lemma split_bearer (rest : string) :
  JS.split " " ("Bearer " +:+ rest) !! 1%nat = head (JS.split " " rest).
Proof.
  repeat first [rewrite append_nil | rewrite append_cons].
  destruct (split_first_segment rest) as (w & ws & Hw).
  simpl. rewrite Hw. reflexivity.
Qed.

Lemma presence_passes (token : string) :
  bearer_token token ->
  present (Some ("Bearer " +:+ token)) = true /\
  JS.startsWith ("Bearer " +:+ token) "Bearer " = true /\
  JS.split " " ("Bearer " +:+ token) !! 1%nat = Some token /\
  present (Some token) = true /\
  is_literal (Some token) "null" = false /\
  is_literal (Some token) "undefined" = false.
Proof.
  intros (Hsp & He & Hn & Hu).
  split; [reflexivity |]. split.
  { repeat first [rewrite append_nil | rewrite append_cons].
    unfold JS.startsWith. simpl.
    repeat (destruct (ascii_dec _ _); [| congruence]).
    destruct token; reflexivity. }
  split; [rewrite split_bearer, (split_no_space token Hsp); reflexivity |].
  split.
  { simpl. apply negb_true_iff. apply String.eqb_neq. exact He. }
  unfold is_literal. split; apply bool_decide_eq_false; congruence.
Qed.

(** C10.  A request whose [Authorization] header is absent, or does not
    start with [Bearer ], or whose token after the marker is empty or the
    literal [null] or [undefined], gets in every case the reply an absent
    header gets (401, [Authentication required]); nothing is logged, the
    request is left as it was (no principal attached), and the outcome does
    not depend on the token library. *)
Theorem missing_token_uniform
    (jwt : JsonWebToken) (JWT_SECRET : option string) (req : Request) :
  (authorization req = None \/
   (exists header, authorization req = Some header /\
                   JS.startsWith header "Bearer " = false) \/
   (exists token, authorization req = Some ("Bearer " +:+ token) /\
                  (token = "" \/ token = "null" \/ token = "undefined"))) ->
  let h := authenticate jwt JWT_SECRET req in
  let absent :=
    authenticate jwt JWT_SECRET
      (mkRequest None (user req) (originalUrl req) (method req) (ip req)) in
  h = mkHandled Verdict.Unauthenticated_MissingToken [] req /\
  reply h = reply absent /\ logged h = logged absent /\
  user (request h) = user req.
Proof.
  intros H h absent.
  assert (Hmain : h = mkHandled Verdict.Unauthenticated_MissingToken [] req).
  { subst h. unfold authenticate.
    destruct H as [-> | [(header & -> & Hs) | (token & -> & Ht)]].
    - reflexivity.
    - rewrite Hs. simpl. rewrite orb_true_r. reflexivity.
    - destruct Ht as [-> | [-> | ->]]; reflexivity. }
  rewrite Hmain. repeat split; reflexivity.
Qed.

Lemma missing_token_uniform_witness :
  authenticate (mkJsonWebToken (fun _ _ _ => Ok (mkPayload (Some "u-1") None None (Some "admin") None None)))
    (Some "s3cret")
    (mkRequest (Some "Bearer undefined") None "/api/admin/users" "GET" "10.0.0.7")
  = mkHandled Verdict.Unauthenticated_MissingToken []
      (mkRequest (Some "Bearer undefined") None "/api/admin/users" "GET" "10.0.0.7").
Proof.
  apply (missing_token_uniform
           (mkJsonWebToken (fun _ _ _ => Ok (mkPayload (Some "u-1") None None (Some "admin") None None)))
           (Some "s3cret")
           (mkRequest (Some "Bearer undefined") None "/api/admin/users" "GET" "10.0.0.7")).
  right. right. exists "undefined". split; [reflexivity | tauto].
Defined.

(** ** Token verification: claims and algorithm *)

(** Rewrites the presence check away for a request carrying
    [Bearer <token>]. *)
Ltac pass_presence Hauth Htok :=
  unfold authenticate; rewrite Hauth;
  let P1 := fresh "P" in let P2 := fresh "P" in let P3 := fresh "P" in
  let P4 := fresh "P" in let P5 := fresh "P" in let P6 := fresh "P" in
  destruct (presence_passes _ Htok) as (P1 & P2 & P3 & P4 & P5 & P6);
  rewrite P1, P2, P3, P4, P5, P6;
  cbn [negb orb default from_option Datatypes.id].

(** C9.  When the library verifies the token and hands back a payload in
    which the user identifier or the role claim is missing, the request
    ends with 401 [Invalid token]: [next()] is not called, no principal is
    attached to the request, and the one record logged carries the user id
    of the payload and no other claim. *)
Theorem incomplete_claims_rejected
    (jwt : JsonWebToken) (JWT_SECRET : option string) (req : Request)
    (token : string) (decoded : Payload) :
  authorization req = Some ("Bearer " +:+ token) ->
  bearer_token token ->
  verify jwt token JWT_SECRET (mkVerifyOptions ["HS256"] false) = Ok decoded ->
  present (userId decoded) = false \/ present (role decoded) = false ->
  let h := authenticate jwt JWT_SECRET req in
  reply h = Verdict.Unauthenticated_InvalidToken /\
  reply h <> Next /\
  request h = req /\
  logged h = [ mkLog "warn" "Invalid token payload"
                 [ ("userId", MString (userId decoded)) ] ].
Proof.
  intros Hauth Htok Hver Hlack h. subst h.
  pass_presence Hauth Htok. rewrite Hver.
  assert (Hc : negb (present (userId decoded)) || negb (present (role decoded)) = true).
  { destruct Hlack as [-> | ->]; [reflexivity | apply orb_true_r]. }
  rewrite Hc. cbn. repeat split. discriminate.
Qed.

Lemma incomplete_claims_rejected_witness :
  reply (authenticate (jsonwebtoken sample_runtime) (Some "s3cret")
           (mkRequest (Some "Bearer hs256.norole.sig") None "/api/patients" "GET"
              "10.0.0.7"))
  = Verdict.Unauthenticated_InvalidToken.
Proof.
  apply (incomplete_claims_rejected (jsonwebtoken sample_runtime) (Some "s3cret")
           (mkRequest (Some "Bearer hs256.norole.sig") None "/api/patients" "GET"
              "10.0.0.7")
           "hs256.norole.sig"
           (mkPayload (Some "u-9") None None None None None)).
  - reflexivity.
  - split; [reflexivity | repeat split; discriminate].
  - reflexivity.
  - right. reflexivity.
Defined.

(** The middleware consults the library under the pinned options only:
    two libraries that agree under [algorithms: ['HS256']] are
    indistinguishable through it. *)
Lemma authenticate_pinned_options (jwt1 jwt2 : JsonWebToken) :
  (forall token secret,
      verify jwt1 token secret (mkVerifyOptions ["HS256"] false)
      = verify jwt2 token secret (mkVerifyOptions ["HS256"] false)) ->
  forall JWT_SECRET req,
    authenticate jwt1 JWT_SECRET req = authenticate jwt2 JWT_SECRET req.
Proof.
  intros Hagree JWT_SECRET req. unfold authenticate.
  destruct (authorization req) as [header |]; [| reflexivity].
  cbv zeta. rewrite Hagree. reflexivity.
Qed.

Lemma pinned_list_rejects (rt : Runtime) (token : string) (secret : option string)
    (t : Jws) :
  decode rt token = Some t -> alg t <> "HS256" ->
  exists msg,
    jwt_verify rt token secret (mkVerifyOptions ["HS256"] false)
    = Throw (mkError "JsonWebTokenError" msg).
Proof.
  intros Hd Halg. unfold jwt_verify. rewrite Hd.
  destruct secret as [key |]; [| eauto].
  cbn [algorithms].
  rewrite bool_decide_eq_false_2; [cbn; eauto |].
  intros Hin. apply list_elem_of_singleton in Hin. exact (Halg Hin).
Qed.

(** C5.  The middleware verifies under the one pinned algorithm [HS256]:
    it reaches the library with [algorithms: ['HS256']] and nothing else,
    and a token whose header names any other algorithm ([none] included) is
    rejected with 401 [Invalid token], whatever its payload, whatever the
    signature check would answer for the algorithm it names; [next()] is
    not called and no principal is attached.  A token that is let through
    names [HS256]. *)
Theorem pinned_algorithm_rejects
    (rt : Runtime) (JWT_SECRET : option string) (req : Request)
    (token : string) (t : Jws) :
  authorization req = Some ("Bearer " +:+ token) ->
  bearer_token token ->
  decode rt token = Some t ->
  let h := authenticate (jsonwebtoken rt) JWT_SECRET req in
  (alg t <> "HS256" ->
   reply h = Verdict.Unauthenticated_InvalidToken /\
   reply h <> Next /\
   request h = req) /\
  (reply h = Next -> alg t = "HS256") /\
  (forall jwt' : JsonWebToken,
      (forall tok secret,
          verify jwt' tok secret (mkVerifyOptions ["HS256"] false)
          = verify (jsonwebtoken rt) tok secret (mkVerifyOptions ["HS256"] false)) ->
      authenticate jwt' JWT_SECRET req = h).
Proof.
  intros Hauth Htok Hd h.
  assert (Hrej : alg t <> "HS256" ->
                 reply h = Verdict.Unauthenticated_InvalidToken /\
                 reply h <> Next /\ request h = req).
  { intros Halg. subst h.
    destruct (pinned_list_rejects rt token JWT_SECRET t Hd Halg) as (msg & Hthrow).
    pass_presence Hauth Htok. cbn [verify jsonwebtoken].
    rewrite Hthrow. cbn. repeat split. discriminate. }
  split; [exact Hrej |]. split.
  - intros Hnext. destruct (decide (alg t = "HS256")) as [He | Hne]; [exact He |].
    destruct (Hrej Hne) as (_ & Hn & _). contradiction.
  - intros jwt' Hagree. subst h. apply authenticate_pinned_options. exact Hagree.
Qed.

Lemma pinned_algorithm_rejects_witness :
  reply (authenticate (jsonwebtoken sample_runtime) (Some "s3cret")
           (mkRequest (Some "Bearer none.admin.sig") None "/api/admin/users" "GET"
              "10.0.0.7"))
  = Verdict.Unauthenticated_InvalidToken.
Proof.
  apply (pinned_algorithm_rejects sample_runtime (Some "s3cret")
           (mkRequest (Some "Bearer none.admin.sig") None "/api/admin/users" "GET"
              "10.0.0.7")
           "none.admin.sig"
           (mkJws "none" (mkPayload (Some "u-1") None None (Some "admin") None None))).
  - reflexivity.
  - split; [reflexivity | repeat split; discriminate].
  - reflexivity.
  - discriminate.
Defined.

(** Whatever the library answers, the middleware attaches a principal only
    together with [next()], and only one that carries a user identifier and
    a role; on every other path the request is left as it came. *)
Theorem principal_has_claims
    (jwt : JsonWebToken) (JWT_SECRET : option string) (req : Request) :
  let h := authenticate jwt JWT_SECRET req in
  (reply h = Next ->
   exists decoded,
     user (request h) = Some decoded /\
     present (userId decoded) = true /\ present (role decoded) = true) /\
  (reply h <> Next -> request h = req).
Proof.
  intros h. subst h. unfold authenticate.
  destruct (authorization req) as [header |]; [| split; [discriminate | reflexivity]].
  cbv zeta.
  destruct (negb (present (Some header)) || negb (JS.startsWith header "Bearer "));
    [split; [discriminate | reflexivity] |].
  destruct (negb (present (JS.split " " header !! 1%nat))
            || is_literal (JS.split " " header !! 1%nat) "null"
            || is_literal (JS.split " " header !! 1%nat) "undefined");
    [split; [discriminate | reflexivity] |].
  destruct (verify jwt _ JWT_SECRET _) as [decoded | error].
  - destruct (present (userId decoded)) eqn:Hu, (present (role decoded)) eqn:Hr;
      cbn; split; try discriminate; try reflexivity.
    + intros _. exists decoded. auto.
    + intros H. exfalso. apply H. reflexivity.
  - destruct (String.eqb (name error) "TokenExpiredError");
      [split; [discriminate | reflexivity] |].
    destruct (String.eqb (name error) "JsonWebTokenError");
      [split; [discriminate | reflexivity] |].
    destruct (String.eqb (name error) "NotBeforeError");
      split; try discriminate; reflexivity.
Qed.

(** * Further properties *)

(** ** The authorizer: outcomes and audit trail *)

(** X1.  For an authenticated principal the authorizer either calls
    [next()] and logs nothing, or answers 403 and hands the logger exactly
    one [warn] record naming the subject, the role attempted, the roles
    required, the resource, the method and the time.  The request object is
    never modified. *)
Theorem authorizeRole_audit
    (allowedRoles : list string) (options : Options) (now : string)
    (req : Request) (u : Payload) :
  user req = Some u ->
  let h := authorizeRole allowedRoles options now req in
  request h = req /\
  ((reply h = Next /\ logged h = []) \/
   ((reply h = Verdict.Deny_StrictRoleMismatch \/
     reply h = Verdict.Deny_InsufficientRole) /\
    exists e,
      logged h = [e] /\ level e = "warn" /\
      field "userId" e = Some (MString (or_claim (userId u) (id u))) /\
      field "userRole" e = Some (MString (role u)) /\
      field "requiredRoles" e = Some (MList allowedRoles) /\
      field "resource" e = Some (MString (Some (originalUrl req))) /\
      field "method" e = Some (MString (Some (method req))) /\
      field "timestamp" e = Some (MString (Some now)))).
Proof.
  intros Hu h. subst h. unfold authorizeRole. rewrite Hu. cbv zeta.
  destruct (includes allowedRoles (role u)); [split; [reflexivity | left; split; reflexivity] |].
  destruct (default false (strict options)).
  - split; [reflexivity | right]. split; [left; reflexivity |].
    eexists. repeat split.
  - destruct (JS.ge _ _); [split; [reflexivity | left; split; reflexivity] |].
    split; [reflexivity | right]. split; [right; reflexivity |].
    eexists. repeat split.
Qed.

Lemma authorizeRole_audit_witness :
  length (logged (authorizeRole ["admin"] (mkOptions None)
                    "2024-05-01T08:00:00.000Z" (principal "staff"))) = 1%nat.
Proof.
  destruct (authorizeRole_audit ["admin"] (mkOptions None)
              "2024-05-01T08:00:00.000Z" (principal "staff")
              (mkPayload (Some "u-17") None (Some "kim") (Some "staff") None None)
              eq_refl)
    as [_ [[H _] | [_ (e & -> & _)]]].
  - vm_compute in H. discriminate H.
  - reflexivity.
Defined.

(** ** The authorizer: the hierarchy as an order *)

Lemma level_cases (r : string) :
  (exists z, JS.ToNumber (rank r) = JS.Fin z /\ 0 <= z <= 5) \/
  JS.ToNumber (rank r) = JS.NaN.
Proof.
  destruct (decide (closed_role r)) as [Hc | Hc].
  - destruct (rank_closed r Hc) as (z & -> & Hb). left. exists z. split; [reflexivity | lia].
  - destruct (JS.Object_prototype !! r) as [v |] eqn:Hp.
    + destruct (rank_inherited r v Hc Hp) as [-> Hn]. right. exact Hn.
    + rewrite (rank_plain r Hc Hp). left. exists 0. split; [reflexivity | lia].
Qed.

Lemma ge_plain (r r' : string) (z z' : Z) :
  rank r = JS.Num (JS.Fin z) -> rank r' = JS.Num (JS.Fin z') ->
  JS.ge (rank r) (rank r') = true <-> z' <= z.
Proof.
  intros -> ->. unfold JS.ge. simpl. apply Z.leb_le.
Qed.

(** The decision of a non-strict policy, away from the inherited names:
    the principal passes exactly when its rank is [>=] the rank of some
    role the policy names. *)
Lemma nonstrict_allow_iff
    (allowedRoles : list string) (options : Options) (now : string)
    (req : Request) (u : Payload) (r : string) :
  user req = Some u -> role u = Some r ->
  default false (strict options) = false ->
  plain_name r -> Forall plain_name allowedRoles ->
  reply (authorizeRole allowedRoles options now req) = Next <->
  exists r', r' ∈ allowedRoles /\ JS.ge (rank r) (rank r') = true.
Proof.
  intros Hu Hr Hs Hp Hall. unfold authorizeRole. rewrite Hu, Hs, Hr. cbv zeta.
  destruct (rank_numeric r Hp) as (z & Hz & _).
  destruct (includes allowedRoles (Some r)) eqn:Hin.
  - split; [intros _ | reflexivity].
    apply includes_spec in Hin as (r0 & [= <-] & Hin).
    exists r. split; [exact Hin |]. apply (ge_plain r r z z Hz Hz). lia.
  - cbn [role_key default from_option Datatypes.id].
    destruct allowedRoles as [| a l].
    + assert (Hg : JS.ge (rank r) (JS.Num (requiredLevel [])) = false)
        by (rewrite Hz; reflexivity).
      rewrite Hg. split; [discriminate |].
      intros (r' & Hr' & _). apply elem_of_nil in Hr'. contradiction.
    + destruct (requiredLevel_minimum (a :: l) ltac:(congruence) Hall)
        as (m & Hm & (rm & Hrm & Hrk) & Hlow).
      assert (Hg : JS.ge (rank r) (JS.Num (requiredLevel (a :: l))) = (m <=? z))
        by (rewrite Hm, Hz; reflexivity).
      rewrite Hg.
      destruct (Z.leb_spec m z) as [Hle | Hgt]; cbn.
      * split; [intros _ | reflexivity].
        exists rm. split; [exact Hrm |]. apply (ge_plain r rm z m Hz Hrk). exact Hle.
      * split; [discriminate |].
        intros (r' & Hr' & Hge). destruct (Hlow r' Hr') as (k & Hk & Hmk).
        apply (ge_plain r r' z k Hz Hk) in Hge. lia.
Qed.

(** X2.  Away from the inherited names, a non-strict policy lets a
    principal through exactly when its rank is [>=] the rank of at least
    one role the policy names (the role itself included). *)
Theorem nonstrict_allow_dominates
    (allowedRoles : list string) (options : Options) (now : string)
    (req : Request) (u : Payload) (r : string) :
  user req = Some u -> role u = Some r ->
  default false (strict options) = false ->
  plain_name r -> Forall plain_name allowedRoles ->
  reply (authorizeRole allowedRoles options now req) = Verdict.Allow <->
  exists r', r' ∈ allowedRoles /\ JS.ge (rank r) (rank r') = true.
Proof. apply nonstrict_allow_iff. Qed.

Lemma nonstrict_allow_dominates_witness :
  reply (authorizeRole ["staff"; "dentist"] (mkOptions None)
           "2024-05-01T08:00:00.000Z" (principal "manager")) = Verdict.Allow.
Proof.
  apply (nonstrict_allow_dominates ["staff"; "dentist"] (mkOptions None)
           "2024-05-01T08:00:00.000Z" (principal "manager")
           (mkPayload (Some "u-17") None (Some "kim") (Some "manager") None None)
           "manager"); try reflexivity.
  - repeat constructor.
  - exists "staff". split; [apply list_elem_of_here | reflexivity].
Defined.

(** X3.  Rank monotonicity: under a non-strict policy, whoever outranks
    (or equals in rank) a principal that passes, passes too. *)
Theorem hierarchy_monotone
    (allowedRoles : list string) (options : Options) (now now' : string)
    (req req' : Request) (u u' : Payload) (r r' : string) :
  default false (strict options) = false ->
  Forall plain_name allowedRoles ->
  user req = Some u -> role u = Some r -> plain_name r ->
  user req' = Some u' -> role u' = Some r' -> plain_name r' ->
  JS.ge (rank r') (rank r) = true ->
  reply (authorizeRole allowedRoles options now req) = Verdict.Allow ->
  reply (authorizeRole allowedRoles options now' req') = Verdict.Allow.
Proof.
  intros Hs Hall Hu Hr Hp Hu' Hr' Hp' Hge Hallow.
  apply (nonstrict_allow_iff _ _ _ _ u r Hu Hr Hs Hp Hall) in Hallow
    as (r0 & Hin & Hge0).
  apply (nonstrict_allow_iff _ _ _ _ u' r' Hu' Hr' Hs Hp' Hall).
  exists r0. split; [exact Hin |].
  rewrite Forall_forall in Hall.
  destruct (rank_numeric r Hp) as (z & Hz & _).
  destruct (rank_numeric r' Hp') as (z' & Hz' & _).
  destruct (rank_numeric r0 (Hall r0 Hin)) as (z0 & Hz0 & _).
  apply (ge_plain r' r z' z Hz' Hz) in Hge.
  apply (ge_plain r r0 z z0 Hz Hz0) in Hge0.
  apply (ge_plain r' r0 z' z0 Hz' Hz0). lia.
Qed.

Lemma hierarchy_monotone_witness :
  reply (authorizeRole ["dentist"] (mkOptions None)
           "2024-05-01T09:00:00.000Z" (principal "admin")) = Verdict.Allow.
Proof.
  apply (hierarchy_monotone ["dentist"] (mkOptions None)
           "2024-05-01T08:00:00.000Z" "2024-05-01T09:00:00.000Z"
           (principal "manager") (principal "admin")
           (mkPayload (Some "u-17") None (Some "kim") (Some "manager") None None)
           (mkPayload (Some "u-17") None (Some "kim") (Some "admin") None None)
           "manager" "admin"); try reflexivity.
  repeat constructor.
Defined.

(** X4.  Naming more roles never takes access away: a principal that a
    non-strict policy lets through is let through by every non-strict
    policy that names the same roles and more. *)
Theorem policy_extension_monotone
    (allowedRoles more : list string) (options : Options) (now : string)
    (req : Request) (u : Payload) (r : string) :
  default false (strict options) = false ->
  user req = Some u -> role u = Some r -> plain_name r ->
  Forall plain_name allowedRoles -> Forall plain_name more ->
  reply (authorizeRole allowedRoles options now req) = Verdict.Allow ->
  reply (authorizeRole (allowedRoles ++ more) options now req) = Verdict.Allow.
Proof.
  intros Hs Hu Hr Hp Hall Hmore Hallow.
  apply (nonstrict_allow_iff _ _ _ _ u r Hu Hr Hs Hp Hall) in Hallow
    as (r0 & Hin & Hge).
  apply (nonstrict_allow_iff _ _ _ _ u r Hu Hr Hs Hp).
  - apply Forall_app. split; assumption.
  - exists r0. split; [apply elem_of_app; left; exact Hin | exact Hge].
Qed.

Lemma policy_extension_monotone_witness :
  reply (authorizeRole (["dentist"] ++ ["admin"; "nurse"]) (mkOptions None)
           "2024-05-01T08:00:00.000Z" (principal "manager")) = Verdict.Allow.
Proof.
  apply (policy_extension_monotone ["dentist"] ["admin"; "nurse"] (mkOptions None)
           "2024-05-01T08:00:00.000Z" (principal "manager")
           (mkPayload (Some "u-17") None (Some "kim") (Some "manager") None None)
           "manager"); try reflexivity; repeat constructor.
Defined.

(** X5.  Strictness only narrows: whoever passes a policy in strict mode
    passes the same policy in non-strict mode. *)
Theorem strict_allow_implies_nonstrict
    (allowedRoles : list string) (options : Options) (now now' : string)
    (req : Request) :
  reply (authorizeRole allowedRoles (mkOptions (Some true)) now req) = Verdict.Allow ->
  reply (authorizeRole allowedRoles options now' req) = Verdict.Allow.
Proof.
  unfold authorizeRole. destruct (user req) as [u |]; [| discriminate].
  cbv zeta. destruct (includes allowedRoles (role u)); [reflexivity |].
  cbn. discriminate.
Qed.

Lemma strict_allow_implies_nonstrict_witness :
  reply (authorizeRole ["patient"] (mkOptions None)
           "2024-05-01T09:00:00.000Z" (principal "patient")) = Verdict.Allow.
Proof.
  apply (strict_allow_implies_nonstrict ["patient"] (mkOptions None)
           "2024-05-01T08:00:00.000Z" "2024-05-01T09:00:00.000Z"
           (principal "patient")).
  reflexivity.
Defined.

(** X6.  A policy that names no role lets nobody through, in either mode
    and whatever the role: [Math.min()] of no argument is [+Infinity].  An
    authenticated principal is answered 403, a request without [req.user]
    401 with nothing logged. *)
Theorem empty_policy_denies_all
    (options : Options) (now : string) (req : Request) :
  reply (authorizeRole [] options now req) <> Verdict.Allow /\
  (forall u, user req = Some u ->
     reply (authorizeRole [] options now req)
     = if default false (strict options) then Verdict.Deny_StrictRoleMismatch
       else Verdict.Deny_InsufficientRole) /\
  (user req = None ->
   reply (authorizeRole [] options now req) = Verdict.Unauthenticated_MissingToken /\
   reply (authorizeRole [] options now req)
   = Json 401 [("message", "Authentication required")] /\
   logged (authorizeRole [] options now req) = []).
Proof.
  assert (Hge : forall r, JS.ge (rank r) (JS.Num (requiredLevel [])) = false).
  { intros r. unfold JS.ge.
    destruct (level_cases r) as [(z & -> & _) | ->]; reflexivity. }
  unfold authorizeRole. destruct (user req) as [u |]; cbv zeta.
  - assert (Hin : includes [] (role u) = false).
    { unfold includes. destruct (role u); [| reflexivity].
      apply bool_decide_eq_false. apply not_elem_of_nil. }
    rewrite Hin, Hge.
    split; [| split].
    + destruct (default false (strict options)); discriminate.
    + intros u' _. destruct (default false (strict options)); reflexivity.
    + discriminate.
  - split; [discriminate |]. split; [intros u' [=] |].
    intros _. repeat split.
Qed.

(** X7.  The top of the hierarchy: [admin] passes every non-strict policy
    that names at least one role, none of the names being an inherited
    one. *)
Theorem admin_passes_nonstrict
    (allowedRoles : list string) (options : Options) (now : string)
    (req : Request) (u : Payload) :
  user req = Some u -> role u = Some "admin" ->
  default false (strict options) = false ->
  allowedRoles <> [] -> Forall plain_name allowedRoles ->
  reply (authorizeRole allowedRoles options now req) = Verdict.Allow.
Proof.
  intros Hu Hr Hs Hne Hall.
  apply (nonstrict_allow_iff _ _ _ _ u "admin" Hu Hr Hs eq_refl Hall).
  destruct allowedRoles as [| a l]; [congruence |].
  exists a. split; [apply list_elem_of_here |].
  apply Forall_cons in Hall as [Ha _].
  destruct (rank_numeric a Ha) as (z & Hz & Hb & _).
  apply (ge_plain "admin" a 5 z eq_refl Hz). lia.
Qed.

Lemma admin_passes_nonstrict_witness :
  reply (authorizeRole ["patient"; "receptionist"] (mkOptions (Some false))
           "2024-05-01T08:00:00.000Z" (principal "admin")) = Verdict.Allow.
Proof.
  apply (admin_passes_nonstrict ["patient"; "receptionist"] (mkOptions (Some false))
           "2024-05-01T08:00:00.000Z" (principal "admin")
           (mkPayload (Some "u-17") None (Some "kim") (Some "admin") None None));
    try reflexivity; [discriminate | repeat constructor].
Defined.

Lemma min_number_swap (a b c : JS.number) :
  JS.min_number a (JS.min_number b c) = JS.min_number b (JS.min_number a c).
Proof.
  destruct a, b, c; simpl; try reflexivity; f_equal; lia.
Qed.

Lemma Math_min_Permutation (l l' : list JS.value) :
  l ≡ₚ l' -> JS.Math_min l = JS.Math_min l'.
Proof.
  unfold JS.Math_min. induction 1 as [| x l l' _ IH | x y l | l l' l'' _ IH1 _ IH2].
  - reflexivity.
  - simpl. rewrite IH. reflexivity.
  - simpl. apply min_number_swap.
  - congruence.
Qed.

(** X8.  The order in which a route lists its roles does not matter: two
    policies that are permutations of each other answer every request
    alike. *)
Theorem policy_order_irrelevant
    (allowedRoles allowedRoles' : list string) (options : Options)
    (now : string) (req : Request) :
  allowedRoles ≡ₚ allowedRoles' ->
  reply (authorizeRole allowedRoles options now req)
  = reply (authorizeRole allowedRoles' options now req).
Proof.
  intros Hperm. unfold authorizeRole.
  destruct (user req) as [u |]; [| reflexivity]. cbv zeta.
  assert (Hin : includes allowedRoles (role u) = includes allowedRoles' (role u)).
  { unfold includes. destruct (role u) as [r |]; [| reflexivity].
    apply bool_decide_ext. rewrite Hperm. reflexivity. }
  assert (Hmin : requiredLevel allowedRoles = requiredLevel allowedRoles').
  { unfold requiredLevel. apply Math_min_Permutation.
    apply Permutation_map. exact Hperm. }
  rewrite Hin, Hmin.
  destruct (includes allowedRoles' (role u)); [reflexivity |].
  destruct (default false (strict options)); [reflexivity |].
  destruct (JS.ge _ _); reflexivity.
Qed.

Lemma policy_order_irrelevant_witness :
  reply (authorizeRole ["manager"; "dentist"] (mkOptions None)
           "2024-05-01T08:00:00.000Z" (principal "staff"))
  = reply (authorizeRole ["dentist"; "manager"] (mkOptions None)
             "2024-05-01T08:00:00.000Z" (principal "staff")).
Proof.
  apply (policy_order_irrelevant ["manager"; "dentist"] ["dentist"; "manager"]).
  apply perm_swap.
Defined.

(** ** The token verifier: what reaches the library and what comes back *)

Lemma presence_prefix (rest : string) :
  present (Some ("Bearer " +:+ rest)) = true /\
  JS.startsWith ("Bearer " +:+ rest) "Bearer " = true.
Proof.
  split; [reflexivity |].
  repeat first [rewrite append_nil | rewrite append_cons].
  unfold JS.startsWith. simpl.
  repeat (destruct (ascii_dec _ _); [| congruence]).
  destruct rest; reflexivity.
Qed.

Lemma split_append_space (token tail : string) :
  no_space token = true ->
  JS.split " " (token +:+ " " +:+ tail) = token :: JS.split " " tail.
Proof.
  unfold no_space. induction token as [| c t IH]; intros H.
  - reflexivity.
  - simpl in H. apply andb_prop in H as [Hc Ht]. apply negb_true_iff in Hc.
    rewrite append_cons. simpl. rewrite Hc, (IH Ht). reflexivity.
Qed.

(** What [next()] out of the verifier means: the header carried a token,
    the library verified it under the pinned options, and the payload it
    returned, with both claims in it, is the principal now attached. *)
Lemma authenticate_next_inv
    (jwt : JsonWebToken) (JWT_SECRET : option string) (req : Request) :
  reply (authenticate jwt JWT_SECRET req) = Next ->
  exists token decoded,
    verify jwt token JWT_SECRET (mkVerifyOptions ["HS256"] false) = Ok decoded /\
    present (userId decoded) = true /\ present (role decoded) = true /\
    logged (authenticate jwt JWT_SECRET req) = [] /\
    request (authenticate jwt JWT_SECRET req)
    = mkRequest (authorization req) (Some decoded)
        (originalUrl req) (method req) (ip req).
Proof.
  unfold authenticate.
  destruct (authorization req) as [header |]; [| discriminate].
  cbv zeta.
  destruct (negb (present (Some header)) || negb (JS.startsWith header "Bearer "));
    [discriminate |].
  destruct (negb (present (JS.split " " header !! 1%nat))
            || is_literal (JS.split " " header !! 1%nat) "null"
            || is_literal (JS.split " " header !! 1%nat) "undefined");
    [discriminate |].
  destruct (verify jwt _ JWT_SECRET _) as [decoded | error] eqn:Hv.
  - destruct (present (userId decoded)) eqn:Hu, (present (role decoded)) eqn:Hr;
      cbn; try discriminate.
    intros _. eexists _, decoded. split; [exact Hv |]. auto.
  - destruct (String.eqb (name error) "TokenExpiredError"); [discriminate |].
    destruct (String.eqb (name error) "JsonWebTokenError"); [discriminate |].
    destruct (String.eqb (name error) "NotBeforeError"); discriminate.
Qed.

(** X9.  A token the library verifies, with a user identifier and a role
    in its payload, passes: [next()] is called, nothing is logged, and the
    request goes on with [req.user] set to exactly the payload the library
    returned, whatever [req.user] held before, and nothing else changed. *)
Theorem authenticate_attaches_payload
    (jwt : JsonWebToken) (JWT_SECRET : option string) (req : Request)
    (token : string) (decoded : Payload) :
  authorization req = Some ("Bearer " +:+ token) ->
  bearer_token token ->
  verify jwt token JWT_SECRET (mkVerifyOptions ["HS256"] false) = Ok decoded ->
  present (userId decoded) = true -> present (role decoded) = true ->
  authenticate jwt JWT_SECRET req
  = mkHandled Next []
      (mkRequest (authorization req) (Some decoded)
         (originalUrl req) (method req) (ip req)).
Proof.
  intros Hauth Htok Hver Hu Hr.
  pass_presence Hauth Htok. rewrite Hver, Hu, Hr. reflexivity.
Qed.

Lemma authenticate_attaches_payload_witness :
  user (request
          (authenticate
             (mkJsonWebToken (fun _ _ _ =>
                Ok (mkPayload (Some "u-1") None None (Some "dentist") None None)))
             (Some "s3cret")
             (mkRequest (Some "Bearer abc.def.ghi")
                (Some (mkPayload (Some "u-0") None None (Some "admin") None None))
                "/api/treatments" "GET" "10.0.0.7")))
  = Some (mkPayload (Some "u-1") None None (Some "dentist") None None).
Proof.
  rewrite (authenticate_attaches_payload
             (mkJsonWebToken (fun _ _ _ =>
                Ok (mkPayload (Some "u-1") None None (Some "dentist") None None)))
             (Some "s3cret")
             (mkRequest (Some "Bearer abc.def.ghi")
                (Some (mkPayload (Some "u-0") None None (Some "admin") None None))
                "/api/treatments" "GET" "10.0.0.7")
             "abc.def.ghi"
             (mkPayload (Some "u-1") None None (Some "dentist") None None)).
  - reflexivity.
  - reflexivity.
  - split; [reflexivity | repeat split; discriminate].
  - reflexivity.
  - reflexivity.
  - reflexivity.
Defined.

(** X10.  When the library throws, the reply follows the name of the
    error, and the [TOKEN_EXPIRED] code goes out exactly for a
    [TokenExpiredError]; an expired or not yet valid token is not logged,
    any other failure is logged once; the request goes on unchanged and
    [next()] is not called. *)
Theorem authenticate_error_mapping
    (jwt : JsonWebToken) (JWT_SECRET : option string) (req : Request)
    (token : string) (e : Error) :
  authorization req = Some ("Bearer " +:+ token) ->
  bearer_token token ->
  verify jwt token JWT_SECRET (mkVerifyOptions ["HS256"] false) = Throw e ->
  let h := authenticate jwt JWT_SECRET req in
  (reply h = Verdict.Unauthenticated_TokenExpired <-> name e = "TokenExpiredError") /\
  (name e = "JsonWebTokenError" ->
   reply h = Verdict.Unauthenticated_InvalidToken /\
   logged h = [ mkLog "warn" "JWT verification failed"
                  [ ("error", MString (Some (message e)));
                    ("ip", MString (Some (ip req))) ] ]) /\
  (name e = "NotBeforeError" ->
   reply h = Verdict.Unauthenticated_TokenNotYetValid /\ logged h = []) /\
  (name e <> "TokenExpiredError" -> name e <> "JsonWebTokenError" ->
   name e <> "NotBeforeError" ->
   reply h = Verdict.Unauthenticated_Failed /\
   logged h = [ mkLog "error" "Authentication error"
                  [ ("error", MString (Some (message e))) ] ]) /\
  (name e = "TokenExpiredError" -> logged h = []) /\
  request h = req.
Proof.
  intros Hauth Htok Hver h. subst h.
  pass_presence Hauth Htok. rewrite Hver.
  destruct (String.eqb_spec (name e) "TokenExpiredError") as [He | He].
  { rewrite He. cbn. repeat split; try discriminate; try congruence. }
  destruct (String.eqb_spec (name e) "JsonWebTokenError") as [Hj | Hj].
  { rewrite Hj. cbn. repeat split; try discriminate; try congruence. }
  destruct (String.eqb_spec (name e) "NotBeforeError") as [Hn | Hn].
  { rewrite Hn. cbn. repeat split; try discriminate; try congruence. }
  cbn. repeat split; try discriminate; try congruence.
Qed.

Lemma authenticate_error_mapping_witness :
  reply (authenticate
           (mkJsonWebToken (fun _ _ _ => Throw (mkError "TokenExpiredError" "jwt expired")))
           (Some "s3cret")
           (mkRequest (Some "Bearer abc.def.ghi") None "/api/treatments" "GET" "10.0.0.7"))
  = Verdict.Unauthenticated_TokenExpired.
Proof.
  apply (authenticate_error_mapping
           (mkJsonWebToken (fun _ _ _ => Throw (mkError "TokenExpiredError" "jwt expired")))
           (Some "s3cret")
           (mkRequest (Some "Bearer abc.def.ghi") None "/api/treatments" "GET" "10.0.0.7")
           "abc.def.ghi" (mkError "TokenExpiredError" "jwt expired")).
  - reflexivity.
  - split; [reflexivity | repeat split; discriminate].
  - reflexivity.
  - reflexivity.
Defined.

(** X11.  Whatever the header and whatever the library does, the verifier
    either calls [next()] or answers with status 401, and it hands the
    logger one record at most; a request turned away for a missing token
    leaves no record. *)
Theorem authenticate_outcomes
    (jwt : JsonWebToken) (JWT_SECRET : option string) (req : Request) :
  let h := authenticate jwt JWT_SECRET req in
  (reply h = Next \/ exists body, reply h = Json 401 body) /\
  (length (logged h) <= 1)%nat /\
  (reply h = Verdict.Unauthenticated_MissingToken -> logged h = []).
Proof.
  intros h. subst h. unfold authenticate.
  destruct (authorization req) as [header |]; cbv zeta;
    [| cbn; split; [eauto | split; [lia | reflexivity]]].
  destruct (negb (present (Some header)) || negb (JS.startsWith header "Bearer "));
    [cbn; split; [eauto | split; [lia | reflexivity]] |].
  destruct (negb (present (JS.split " " header !! 1%nat))
            || is_literal (JS.split " " header !! 1%nat) "null"
            || is_literal (JS.split " " header !! 1%nat) "undefined");
    [cbn; split; [eauto | split; [lia | reflexivity]] |].
  destruct (verify jwt _ JWT_SECRET _) as [decoded | error].
  - destruct (negb (present (userId decoded)) || negb (present (role decoded)));
      cbn; (split; [eauto | split; [lia | try discriminate; reflexivity]]).
  - destruct (String.eqb (name error) "TokenExpiredError");
      [cbn; split; [eauto | split; [lia | reflexivity]] |].
    destruct (String.eqb (name error) "JsonWebTokenError");
      [cbn; split; [eauto | split; [lia | discriminate]] |].
    destruct (String.eqb (name error) "NotBeforeError");
      cbn; (split; [eauto | split; [lia | try discriminate; reflexivity]]).
Qed.

(** X12.  Only the first space-separated segment after [Bearer ] is the
    token: whatever follows a second space is ignored, so the header
    [Bearer <token> <anything>] is answered as [Bearer <token>] is. *)
Theorem authenticate_first_segment
    (jwt : JsonWebToken) (JWT_SECRET : option string) (req : Request)
    (token tail : string) :
  no_space token = true ->
  authorization req = Some ("Bearer " +:+ token +:+ " " +:+ tail) ->
  let h := authenticate jwt JWT_SECRET req in
  let h0 := authenticate jwt JWT_SECRET
              (mkRequest (Some ("Bearer " +:+ token)) (user req)
                 (originalUrl req) (method req) (ip req)) in
  reply h = reply h0 /\ logged h = logged h0 /\
  user (request h) = user (request h0).
Proof.
  intros Hsp Hauth h h0. subst h h0. unfold authenticate.
  rewrite Hauth. cbn [authorization].
  destruct (presence_prefix (token +:+ " " +:+ tail)) as [-> ->].
  destruct (presence_prefix token) as [-> ->].
  rewrite !split_bearer, split_append_space, (split_no_space token) by exact Hsp.
  cbn [head negb orb originalUrl method ip user].
  destruct (negb (present (Some token)) || is_literal (Some token) "null"
            || is_literal (Some token) "undefined");
    [repeat split |].
  destruct (verify jwt _ JWT_SECRET _) as [decoded | error].
  - destruct (negb (present (userId decoded)) || negb (present (role decoded)));
      repeat split.
  - destruct (String.eqb (name error) "TokenExpiredError"); [repeat split |].
    destruct (String.eqb (name error) "JsonWebTokenError"); [repeat split |].
    destruct (String.eqb (name error) "NotBeforeError"); repeat split.
Qed.

Lemma authenticate_first_segment_witness :
  reply (authenticate (jsonwebtoken sample_runtime) (Some "s3cret")
           (mkRequest (Some "Bearer hs256.norole.sig trailing words") None
              "/api/patients" "GET" "10.0.0.7"))
  = reply (authenticate (jsonwebtoken sample_runtime) (Some "s3cret")
             (mkRequest (Some "Bearer hs256.norole.sig") None
                "/api/patients" "GET" "10.0.0.7")).
Proof.
  apply (authenticate_first_segment (jsonwebtoken sample_runtime) (Some "s3cret")
           (mkRequest (Some "Bearer hs256.norole.sig trailing words") None
              "/api/patients" "GET" "10.0.0.7")
           "hs256.norole.sig" "trailing words"); reflexivity.
Defined.

(** ** Guarded routes: the verifier followed by the authorizer *)

(** A non-strict policy over closed roles, for any role value: names
    outside the closed set and a missing role are turned away. *)
Lemma closed_policy_closed_role
    (allowedRoles : list string) (now : string) (req : Request) (u : Payload) :
  user req = Some u -> Forall closed_role allowedRoles ->
  reply (authorizeRole allowedRoles (mkOptions None) now req) = Next ->
  exists r, role u = Some r /\ closed_role r.
Proof.
  intros Hu Hall. unfold authorizeRole. rewrite Hu. cbv zeta.
  destruct (role u) as [r |] eqn:Hr.
  - destruct (decide (closed_role r)) as [Hc | Hc]; [eauto |].
    rewrite (not_closed_not_included allowedRoles r Hall Hc).
    cbn [default from_option Datatypes.id strict role_key].
    rewrite (unrecognized_below r _ Hc (requiredLevel_closed allowedRoles Hall)).
    discriminate.
  - cbn [includes default from_option Datatypes.id strict role_key].
    rewrite (unrecognized_below "undefined" _ ltac:(unfold closed_role; intros [H | [H | [H | [H | H]]]]; discriminate H)
               (requiredLevel_closed allowedRoles Hall)).
    discriminate.
Qed.

Lemma admin_manager_policy (now : string) (req : Request) (u : Payload) :
  user req = Some u ->
  reply (authorizeRole ["admin"; "manager"] (mkOptions None) now req) = Next <->
  role u = Some "admin" \/ role u = Some "manager".
Proof.
  intros Hu. split.
  - intros Hnext.
    destruct (closed_policy_closed_role ["admin"; "manager"] now req u Hu) as (r & Hr & Hc);
      [repeat constructor; unfold closed_role; tauto | exact Hnext |].
    revert Hnext. unfold authorizeRole. rewrite Hu, Hr.
    destruct Hc as [-> | [-> | [-> | [-> | ->]]]]; vm_compute; intros H;
      try discriminate H; tauto.
  - unfold authorizeRole. rewrite Hu. intros [-> | ->]; reflexivity.
Qed.

Lemma admin_only_policy (now : string) (req : Request) (u : Payload) :
  user req = Some u ->
  reply (authorizeRole ["admin"] (mkOptions None) now req) = Next <->
  role u = Some "admin".
Proof.
  intros Hu. split.
  - intros Hnext.
    destruct (closed_policy_closed_role ["admin"] now req u Hu) as (r & Hr & Hc);
      [repeat constructor; unfold closed_role; tauto | exact Hnext |].
    revert Hnext. unfold authorizeRole. rewrite Hu, Hr.
    destruct Hc as [-> | [-> | [-> | [-> | ->]]]]; vm_compute; intros H;
      try discriminate H; reflexivity.
  - unfold authorizeRole. rewrite Hu. intros ->. reflexivity.
Qed.

(** X13.  In a guarded route the authorizer never answers 401: when the
    verifier turns the request away its answer is the answer of the route
    and the authorizer does not run; when the verifier passes, the route
    either reaches its controller or answers the 403 of the authorizer,
    under which exactly one record is logged. *)
Theorem guard_outcomes
    (jwt : JsonWebToken) (JWT_SECRET : option string) (now : string)
    (route : Route) (req : Request) :
  let h1 := authenticate jwt JWT_SECRET req in
  let h := guard jwt JWT_SECRET now route req in
  (reply h1 <> Next -> h = h1) /\
  (reply h1 = Next ->
   (reply h = Next /\ logged h = []) \/
   (reply h = Verdict.Deny_InsufficientRole /\ length (logged h) = 1%nat)).
Proof.
  intros h1 h. subst h h1. unfold guard, chain. cbv zeta.
  split.
  - destruct (reply (authenticate jwt JWT_SECRET req)) eqn:Hr; [congruence | reflexivity].
  - intros Hnext. rewrite Hnext.
    destruct (authenticate_next_inv jwt JWT_SECRET req Hnext)
      as (token & decoded & _ & _ & _ & Hlog & Hreq).
    rewrite Hlog, Hreq. cbn [reply logged app].
    unfold authorizeRole. cbn [user strict default from_option Datatypes.id].
    destruct (includes (allowed route) (role decoded)); [left; split; reflexivity |].
    destruct (JS.ge _ _); [left; split; reflexivity | right; split; reflexivity].
Qed.

Lemma guard_outcomes_witness :
  guard (jsonwebtoken sample_runtime) (Some "s3cret") "2024-05-01T08:00:00.000Z"
    (mkRoute "GET" "/users" ["admin"; "manager"] "listUsers")
    (mkRequest (Some "Bearer none.admin.sig") None "/api/admin/users" "GET" "10.0.0.7")
  = authenticate (jsonwebtoken sample_runtime) (Some "s3cret")
      (mkRequest (Some "Bearer none.admin.sig") None "/api/admin/users" "GET" "10.0.0.7").
Proof.
  apply (guard_outcomes (jsonwebtoken sample_runtime) (Some "s3cret")
           "2024-05-01T08:00:00.000Z"
           (mkRoute "GET" "/users" ["admin"; "manager"] "listUsers")
           (mkRequest (Some "Bearer none.admin.sig") None "/api/admin/users" "GET"
              "10.0.0.7")).
  vm_compute. discriminate.
Defined.

(** X14.  A guarded route reaches its controller only with a token the
    library verified under the pinned options: the principal the controller
    sees is the payload of that token, it carries a user identifier and a
    role, and the policy of the route lets that principal through. *)
Theorem guard_reaches_controller
    (jwt : JsonWebToken) (JWT_SECRET : option string) (now : string)
    (route : Route) (req : Request) :
  reply (guard jwt JWT_SECRET now route req) = Next ->
  exists token decoded,
    verify jwt token JWT_SECRET (mkVerifyOptions ["HS256"] false) = Ok decoded /\
    user (request (guard jwt JWT_SECRET now route req)) = Some decoded /\
    present (userId decoded) = true /\ present (role decoded) = true /\
    reply (authorizeRole (allowed route) (mkOptions None) now
             (mkRequest (authorization req) (Some decoded)
                (originalUrl req) (method req) (ip req))) = Next.
Proof.
  unfold guard, chain. cbv zeta.
  destruct (reply (authenticate jwt JWT_SECRET req)) eqn:Hr;
    [| rewrite Hr; discriminate].
  destruct (authenticate_next_inv jwt JWT_SECRET req Hr)
    as (token & decoded & Hv & Hu & Hro & Hlog & Hreq).
  rewrite Hreq. cbn [reply request]. intros Hnext.
  exists token, decoded. repeat split; try assumption.
  revert Hnext. unfold authorizeRole. cbn [user].
  destruct (includes _ _); [reflexivity |]. cbn [strict default from_option Datatypes.id].
  destruct (JS.ge _ _); [reflexivity | discriminate].
Qed.

Lemma guard_reaches_controller_witness :
  exists token decoded,
    verify (mkJsonWebToken (fun _ _ _ =>
              Ok (mkPayload (Some "u-1") None None (Some "admin") None None)))
      token (Some "s3cret") (mkVerifyOptions ["HS256"] false) = Ok decoded /\
    role decoded = Some "admin".
Proof.
  destruct (guard_reaches_controller
              (mkJsonWebToken (fun _ _ _ =>
                 Ok (mkPayload (Some "u-1") None None (Some "admin") None None)))
              (Some "s3cret") "2024-05-01T08:00:00.000Z"
              (mkRoute "POST" "/users" ["admin"] "createUser")
              (mkRequest (Some "Bearer abc.def.ghi") None "/api/admin/users" "POST"
                 "10.0.0.7")
              eq_refl)
    as (token & decoded & Hv & _).
  exists token, decoded. split; [exact Hv |].
  cbn in Hv. injection Hv as <-. reflexivity.
Defined.

(** X15.  Access matrix of the admin routes: a request carrying a verified
    token reaches the controller of an admin route exactly when its role
    is [admin], or is [manager] on a route that lists [manager]; [staff],
    [dentist], [patient] and every other role value are turned away on all
    of them. *)
Theorem admin_routes_access
    (jwt : JsonWebToken) (JWT_SECRET : option string) (now : string)
    (route : Route) (req : Request) (token : string) (decoded : Payload) :
  route ∈ adminRoutes ->
  authorization req = Some ("Bearer " +:+ token) ->
  bearer_token token ->
  verify jwt token JWT_SECRET (mkVerifyOptions ["HS256"] false) = Ok decoded ->
  present (userId decoded) = true -> present (role decoded) = true ->
  reply (guard jwt JWT_SECRET now route req) = Next <->
  role decoded = Some "admin" \/
  (role decoded = Some "manager" /\ allowed route = ["admin"; "manager"]).
Proof.
  intros Hroute Hauth Htok Hver Hu Hr.
  unfold guard, chain. cbv zeta.
  assert (Ha : authenticate jwt JWT_SECRET req
               = mkHandled Next []
                   (mkRequest (authorization req) (Some decoded)
                      (originalUrl req) (method req) (ip req))).
  { pass_presence Hauth Htok. rewrite Hver, Hu, Hr. reflexivity. }
  rewrite Ha. cbn [reply request logged].
  set (req' := mkRequest _ _ _ _ _).
  assert (Hu' : user req' = Some decoded) by reflexivity.
  unfold adminRoutes in Hroute.
  repeat (apply elem_of_cons in Hroute as [-> | Hroute]);
    [| | | | | | | apply elem_of_nil in Hroute; contradiction];
    cbn [allowed];
    first [ rewrite (admin_manager_policy now req' decoded Hu'); intuition congruence
          | rewrite (admin_only_policy now req' decoded Hu'); intuition congruence ].
Qed.

Lemma admin_routes_access_witness :
  reply (guard
           (mkJsonWebToken (fun _ _ _ =>
              Ok (mkPayload (Some "u-2") None None (Some "manager") None None)))
           (Some "s3cret") "2024-05-01T08:00:00.000Z"
           (mkRoute "DELETE" "/users/:id" ["admin"; "manager"] "deactivateUser")
           (mkRequest (Some "Bearer abc.def.ghi") None "/api/admin/users/7" "DELETE"
              "10.0.0.7"))
  = Next.
Proof.
  apply (admin_routes_access
           (mkJsonWebToken (fun _ _ _ =>
              Ok (mkPayload (Some "u-2") None None (Some "manager") None None)))
           (Some "s3cret") "2024-05-01T08:00:00.000Z"
           (mkRoute "DELETE" "/users/:id" ["admin"; "manager"] "deactivateUser")
           (mkRequest (Some "Bearer abc.def.ghi") None "/api/admin/users/7" "DELETE"
              "10.0.0.7")
           "abc.def.ghi"
           (mkPayload (Some "u-2") None None (Some "manager") None None)).
  - unfold adminRoutes. do 3 apply list_elem_of_further. apply list_elem_of_here.
  - reflexivity.
  - split; [reflexivity | repeat split; discriminate].
  - reflexivity.
  - reflexivity.
  - reflexivity.
  - right. split; reflexivity.
Defined.

(** ** The shuffle: every permutation can come out *)

Lemma swap_length {A} (arr : list A) (i j : nat) :
  length (swap arr i j) = length arr.
Proof. apply Permutation_length, swap_Permutation. Qed.

Lemma swap_lookup {A} (arr : list A) (i j : nat) (x : A) :
  (i < length arr)%nat -> arr !! j = Some x -> swap arr i j !! i = Some x.
Proof.
  intros Hi Hj. unfold swap. rewrite Hj.
  destruct (lookup_lt_is_Some_2 arr i Hi) as [ai Hai]. rewrite Hai.
  destruct (decide (j = i)) as [-> | Hne].
  - rewrite list_lookup_insert_eq by (rewrite length_insert; exact Hi). congruence.
  - rewrite list_lookup_insert_ne by exact Hne.
    apply list_lookup_insert_eq. exact Hi.
Qed.

Lemma swap_drop {A} (arr : list A) (i j : nat) :
  (j <= i)%nat -> drop (S i) (swap arr i j) = drop (S i) arr.
Proof.
  intros Hj. unfold swap.
  destruct (arr !! j); [| reflexivity]. destruct (arr !! i); [| reflexivity].
  rewrite !drop_insert_lt by lia. reflexivity.
Qed.

Lemma swap_take {A} (arr : list A) (i j : nat) :
  (j <= i)%nat -> take (S i) (swap arr i j) ≡ₚ take (S i) arr.
Proof.
  intros Hj. apply (Permutation_app_inv_r (drop (S i) arr)).
  rewrite <- (swap_drop arr i j Hj) at 1. rewrite !take_drop.
  apply swap_Permutation.
Qed.

(** From index [i] down, the loop can turn [arr] into any [tgt] that
    agrees with it beyond [i] and permutes it up to [i]: [picks] are the
    draws that do it, read by the loop after the calls of [h]. *)
Lemma shuffle_loop_reaches {A} (i : nat) :
  forall (arr tgt : list A) (h : list Z),
    (i < length arr)%nat -> length tgt = length arr ->
    take (S i) tgt ≡ₚ take (S i) arr ->
    drop (S i) tgt = drop (S i) arr ->
    exists picks : list Z,
      length picks = i /\
      forall source,
        (forall k, (k < i)%nat -> source (length h + k)%nat = nth k picks 0) ->
        fst (shuffle_loop i arr (mkEntropy source h)) = Ok tgt.
Proof.
  induction i as [| i IH]; intros arr tgt h Hi Hlen Htake Hdrop.
  - exists []. split; [reflexivity |]. intros source _. simpl.
    destruct arr as [| a arr]; [simpl in Hi; lia |].
    destruct tgt as [| t tgt]; [discriminate |].
    simpl in Htake, Hdrop. rewrite !take_0 in Htake. rewrite !drop_0 in Hdrop.
    apply Permutation_singleton_inj in Htake. congruence.
  - destruct (lookup_lt_is_Some_2 tgt (S i) ltac:(lia)) as [x Hx].
    assert (Hin : x ∈ take (S (S i)) arr).
    { rewrite <- Htake. apply (list_elem_of_lookup_2 _ (S i)).
      rewrite lookup_take_lt by lia. exact Hx. }
    apply list_elem_of_lookup_1 in Hin as [j Hj].
    apply lookup_take_Some in Hj as [Hj Hjlt].
    set (arr' := swap arr (S i) j).
    assert (Hx' : arr' !! S i = Some x) by (apply swap_lookup; assumption).
    assert (Hlen' : length arr' = length arr) by apply swap_length.
    assert (Hdrop' : drop (S (S i)) arr' = drop (S (S i)) arr)
      by (apply swap_drop; lia).
    assert (Htake' : take (S (S i)) arr' ≡ₚ take (S (S i)) arr)
      by (apply swap_take; lia).
    destruct (IH arr' tgt (h ++ [Z.of_nat (S i) + 1])%list) as (picks & Hpl & Hpicks).
    + lia.
    + congruence.
    + apply (Permutation_app_inv_r [x]).
      rewrite <- (take_S_r tgt (S i) x Hx), <- (take_S_r arr' (S i) x Hx').
      rewrite Htake, Htake'. reflexivity.
    + rewrite (drop_S tgt x (S i) Hx), (drop_S arr' x (S i) Hx').
      congruence.
    + exists (Z.of_nat j :: picks). split; [simpl; congruence |].
      intros src Hsrc. cbn [shuffle_loop]. unfold bind.
      rewrite secureRandomInt_run by lia. cbn [source asked].
      assert (Hdraw : src (length h) = Z.of_nat j).
      { pose proof (Hsrc 0%nat ltac:(lia)) as H0. cbn [nth] in H0.
        rewrite <- H0. f_equal. lia. }
      rewrite Hdraw, Z.mod_small by lia. rewrite Nat2Z.id.
      apply Hpicks. intros k Hk.
      rewrite length_app. cbn [length].
      pose proof (Hsrc (S k) ltac:(lia)) as Hk'. cbn [nth] in Hk'.
      rewrite <- Hk'. f_equal. lia.
Qed.

Lemma secureShuffle_reaches_from {A} (array target : list A) (h : list Z) :
  target ≡ₚ array ->
  exists picks : list Z,
    length picks = (length array - 1)%nat /\
    forall source,
      (forall k, (k < length array - 1)%nat ->
                 source (length h + k)%nat = nth k picks 0) ->
      fst (secureShuffle array (mkEntropy source h)) = Ok target.
Proof.
  intros Hperm. unfold secureShuffle.
  destruct array as [| a array].
  - apply Permutation_nil_r in Hperm as ->. exists []. split; reflexivity.
  - cbn [length]. rewrite Nat.sub_1_r. cbn [Nat.pred].
    destruct (shuffle_loop_reaches (length array) (a :: array) target h)
      as (picks & Hl & Hp).
    + simpl. lia.
    + apply Permutation_length. exact Hperm.
    + rewrite !take_ge; [exact Hperm | simpl; lia |].
      rewrite (Permutation_length Hperm). simpl. lia.
    + rewrite !drop_ge; [reflexivity | simpl; lia |].
      rewrite (Permutation_length Hperm). simpl. lia.
    + exists picks. split; [exact Hl | exact Hp].
Qed.

(** X16.  Fisher-Yates is complete: every permutation of the input is the
    output of [secureShuffle] under some behaviour of the generator. *)
Theorem secureShuffle_reaches {A} (array target : list A) :
  target ≡ₚ array ->
  exists source, fst (secureShuffle array (mkEntropy source [])) = Ok target.
Proof.
  intros Hperm.
  destruct (secureShuffle_reaches_from array target [] Hperm) as (picks & _ & Hp).
  exists (fun k => nth k picks 0). apply Hp. intros k _. reflexivity.
Qed.

Lemma secureShuffle_reaches_witness :
  exists source,
    fst (secureShuffle ["a"; "b"; "c"] (mkEntropy source [])) = Ok ["c"; "a"; "b"].
Proof.
  apply (secureShuffle_reaches ["a"; "b"; "c"] ["c"; "a"; "b"]).
  change ["c"; "a"; "b"] with (["c"] ++ ["a"; "b"])%list.
  change ["a"; "b"; "c"] with (["a"; "b"] ++ ["c"])%list.
  apply Permutation_app_comm.
Defined.

(** ** Temporary passwords: length, and every compliant string can come out *)

(** X17.  For every requested length, and with none given, the generator
    returns a string and throws nothing; its length is the requested one
    when that is 4 or more, 4 otherwise, and 12 when no length is given. *)
Theorem generateTempPassword_length (len : option Z) (s : Entropy) :
  exists pw s',
    generateTempPassword len s = (Ok pw, s') /\
    strlen pw = Z.max 4 (default 12 len).
Proof.
  destruct (generateTempPassword_run len s) as (pw & s' & Hrun & Hlen & _).
  exists pw, s'. split; [exact Hrun |]. unfold strlen. rewrite Hlen. lia.
Qed.

Lemma classes_disjoint (c : ascii) :
  (in_class uppercase c = true -> in_class lowercase c = false /\
     in_class numbers c = false /\ in_class symbols c = false) /\
  (in_class lowercase c = true -> in_class numbers c = false /\
     in_class symbols c = false) /\
  (in_class numbers c = true -> in_class symbols c = false).
Proof.
  destruct c as [[] [] [] [] [] [] [] []]; vm_compute;
    repeat split; intros; try reflexivity; discriminate.
Qed.

Lemma class_index (cls : string) (c : ascii) :
  in_class cls c = true ->
  exists k, 0 <= k < strlen cls /\ JS.charAt cls k = String c EmptyString.
Proof.
  unfold in_class, strlen. induction cls as [| a cls IH]; [discriminate |].
  cbn [list_ascii_of_string existsb]. intros H.
  destruct (Ascii.eqb_spec c a) as [-> | Hne].
  - exists 0. split; [cbn [String.length]; lia | reflexivity].
  - cbn [orb] in H. destruct (IH H) as (k & Hk & Hc). exists (k + 1).
    split; [cbn [String.length]; lia |].
    unfold JS.charAt in *.
    destruct (Z.ltb_spec (k + 1) 0); [lia |].
    destruct (Z.ltb_spec k 0); [lia |].
    replace (Z.to_nat (k + 1)) with (S (Z.to_nat k)) by lia. exact Hc.
Qed.

(** The fill loop can append any run of characters of [allChars]. *)
Lemma fill_rest_reaches (extra : list ascii) :
  forall (password : string) (h : list Z),
    Forall (fun c => in_class allChars c = true) extra ->
    exists picks : list Z,
      length picks = length extra /\
      forall src,
        (forall k, (k < length extra)%nat -> src (length h + k)%nat = nth k picks 0) ->
        fill_rest (length extra) password (mkEntropy src h)
        = (Ok (password +:+ string_of_list_ascii extra),
           mkEntropy src (h ++ replicate (length extra) (strlen allChars))).
Proof.
  induction extra as [| c extra IH]; intros password h Hall.
  - exists []. split; [reflexivity |]. intros src _. cbn.
    unfold ret. rewrite append_empty, app_nil_r. reflexivity.
  - apply Forall_cons in Hall as [Hc Hall].
    destruct (class_index allChars c Hc) as (k & Hk & Hchar).
    destruct (IH (password +:+ String c EmptyString) (h ++ [strlen allChars])%list Hall)
      as (picks & Hl & Hp).
    exists (k :: picks). split; [simpl; congruence |].
    intros src Hsrc. cbn [length fill_rest]. unfold bind.
    rewrite secureRandomInt_run by (rewrite allChars_length; lia).
    cbn [source asked].
    assert (Hdraw : src (length h) = k).
    { pose proof (Hsrc 0%nat ltac:(simpl; lia)) as H0. cbn [nth] in H0.
      rewrite <- H0. f_equal. lia. }
    rewrite Hdraw, Z.mod_small by lia. rewrite Hchar.
    rewrite Hp.
    + cbn [string_of_list_ascii replicate].
      rewrite append_snoc, <- app_assoc. reflexivity.
    + intros j Hj. rewrite length_app. cbn [length].
      pose proof (Hsrc (S j) ltac:(simpl; lia)) as Hj'. cbn [nth] in Hj'.
      rewrite <- Hj'. f_equal. lia.
Qed.

Lemma has_class_elem (cls s : string) :
  has_class cls s = true ->
  exists c, c ∈ list_ascii_of_string s /\ in_class cls c = true.
Proof.
  unfold has_class. intros H. apply existsb_exists in H as (c & Hin & Hc).
  exists c. split; [apply list_elem_of_In; exact Hin | exact Hc].
Qed.

(** A string with one character of each class splits, up to order, into
    one uppercase letter, one lowercase letter, one digit, one symbol and
    the rest. *)
Lemma split_classes (s : string) :
  has_class uppercase s = true -> has_class lowercase s = true ->
  has_class numbers s = true -> has_class symbols s = true ->
  exists u l d y rest,
    in_class uppercase u = true /\ in_class lowercase l = true /\
    in_class numbers d = true /\ in_class symbols y = true /\
    list_ascii_of_string s ≡ₚ u :: l :: d :: y :: rest.
Proof.
  intros Hu Hl Hd Hy.
  apply has_class_elem in Hu as (u & Hu & Cu).
  apply has_class_elem in Hl as (l & Hl & Cl).
  apply has_class_elem in Hd as (d & Hd & Cd).
  apply has_class_elem in Hy as (y & Hy & Cy).
  destruct (classes_disjoint u) as (Du & _ & _).
  destruct (Du Cu) as (Dul & Dud & Duy).
  destruct (classes_disjoint l) as (_ & Dl & _).
  destruct (Dl Cl) as (Dld & Dly).
  destruct (classes_disjoint d) as (_ & _ & Dd).
  pose proof (Dd Cd) as Ddy.
  apply elem_of_Permutation in Hu as [k1 H1].
  rewrite H1 in Hl, Hd, Hy.
  apply elem_of_cons in Hl as [-> | Hl]; [congruence |].
  apply elem_of_cons in Hd as [-> | Hd]; [congruence |].
  apply elem_of_cons in Hy as [-> | Hy]; [congruence |].
  apply elem_of_Permutation in Hl as [k2 H2].
  rewrite H2 in Hd, Hy.
  apply elem_of_cons in Hd as [-> | Hd]; [congruence |].
  apply elem_of_cons in Hy as [-> | Hy]; [congruence |].
  apply elem_of_Permutation in Hd as [k3 H3].
  rewrite H3 in Hy.
  apply elem_of_cons in Hy as [-> | Hy]; [congruence |].
  apply elem_of_Permutation in Hy as [rest H4].
  exists u, l, d, y, rest. repeat split; try assumption.
  rewrite H1, H2, H3, H4. reflexivity.
Qed.

Lemma nth_skip4 (a b c d : Z) (l : list Z) (k : nat) :
  nth (4 + k) (a :: b :: c :: d :: l) 0 = nth k l 0.
Proof. reflexivity. Qed.

(** X18.  The generator is complete: every string of [n >= 4] characters of
    the four classes that holds one character at least of each class is
    returned by [generateTempPassword(n)] under some behaviour of the
    entropy source. *)
Theorem generateTempPassword_reaches (n : Z) (target : string) :
  4 <= n ->
  strlen target = n ->
  has_class uppercase target = true ->
  has_class lowercase target = true ->
  has_class numbers target = true ->
  has_class symbols target = true ->
  all_in_class allChars target = true ->
  exists source,
    fst (generateTempPassword (Some n) (mkEntropy source [])) = Ok target.
Proof.
  intros Hn Hlen Hu Hl Hd Hy Hall.
  destruct (split_classes target Hu Hl Hd Hy)
    as (u & l & d & y & rest & Cu & Cl & Cd & Cy & Hperm).
  assert (Hrest : Forall (fun c => in_class allChars c = true) rest).
  { unfold all_in_class in Hall. rewrite forallb_forall in Hall.
    apply Forall_forall. intros c Hc. apply Hall.
    apply list_elem_of_In. rewrite Hperm. do 4 apply list_elem_of_further. exact Hc. }
  assert (Hm : Z.to_nat (n - 4) = length rest).
  { pose proof (Permutation_length Hperm) as Hpl.
    rewrite list_of_string_length in Hpl. unfold strlen in Hlen.
    cbn [length] in Hpl. lia. }
  destruct (class_index uppercase u Cu) as (ku & Hku & Eu).
  destruct (class_index lowercase l Cl) as (kl & Hkl & El).
  destruct (class_index numbers d Cd) as (kd & Hkd & Ed).
  destruct (class_index symbols y Cy) as (ky & Hky & Ey).
  set (h4 := [strlen uppercase; strlen lowercase; strlen numbers; strlen symbols]).
  destruct (fill_rest_reaches rest
              (String u (String l (String d (String y EmptyString)))) h4 Hrest)
    as (pf & Hpfl & Hpf).
  destruct (secureShuffle_reaches_from (u :: l :: d :: y :: rest)
              (list_ascii_of_string target)
              (h4 ++ replicate (length rest) (strlen allChars))%list Hperm)
    as (ps & Hpsl & Hps).
  exists (fun k => nth k (ku :: kl :: kd :: ky :: (pf ++ ps)%list) 0).
  set (src := fun k => nth k (ku :: kl :: kd :: ky :: (pf ++ ps)%list) 0).
  unfold generateTempPassword, bind. cbn [default from_option Datatypes.id].
  rewrite secureRandomInt_run by reflexivity. cbn [source asked length].
  change (src 0%nat) with ku. rewrite Z.mod_small by lia. rewrite Eu.
  rewrite secureRandomInt_run by reflexivity. cbn [source asked length app].
  change (src 1%nat) with kl. rewrite Z.mod_small by lia. rewrite El.
  rewrite secureRandomInt_run by reflexivity. cbn [source asked length app].
  change (src 2%nat) with kd. rewrite Z.mod_small by lia. rewrite Ed.
  rewrite secureRandomInt_run by reflexivity. cbn [source asked length app].
  change (src 3%nat) with ky. rewrite Z.mod_small by lia. rewrite Ey.
  repeat first [rewrite append_nil | rewrite append_cons].
  rewrite Hm.
  change [strlen uppercase; strlen lowercase; strlen numbers; strlen symbols] with h4.
  rewrite (Hpf src).
  2:{ intros k Hk. subst src. cbn beta. change (length h4) with 4%nat.
      rewrite nth_skip4. rewrite app_nth1 by lia. reflexivity. }
  repeat first [rewrite append_nil | rewrite append_cons].
  cbn [list_ascii_of_string]. rewrite list_ascii_of_string_of_list_ascii.
  assert (Hcond : forall k, (k < length (u :: l :: d :: y :: rest) - 1)%nat ->
            src (length (h4 ++ replicate (length rest) (strlen allChars)) + k)%nat
            = nth k ps 0).
  { intros k Hk. subst src. cbn beta.
    rewrite length_app, length_replicate. change (length h4) with 4%nat.
    replace (4 + length rest + k)%nat with (4 + (length pf + k))%nat by lia.
    rewrite nth_skip4. rewrite app_nth2_plus. reflexivity. }
  specialize (Hps src Hcond).
  destruct (secureShuffle (u :: l :: d :: y :: rest) _) as [[arr | e] s'];
    cbn [fst] in Hps; [| discriminate Hps].
  injection Hps as ->.
  unfold ret. cbn [fst]. rewrite string_of_list_ascii_of_string. reflexivity.
Qed.

Lemma generateTempPassword_reaches_witness :
  exists source,
    fst (generateTempPassword (Some 6) (mkEntropy source [])) = Ok "a1B2c#".
Proof.
  apply (generateTempPassword_reaches 6 "a1B2c#"); try reflexivity; lia.
Defined.

(** ** The treatment controller: which treatments count as invoiced *)

Lemma get_prop_Ok (v : json) (key : string) :
  v <> JNull -> v <> JUndefined -> exists w, get_prop v key = Ok w.
Proof. destruct v; simpl; intros; try congruence; eauto. Qed.

Lemma get_prop_Throw (v : json) (key : string) (e : Error) :
  get_prop v key = Throw e -> v = JNull \/ v = JUndefined.
Proof. destruct v; simpl; intros; try discriminate; auto. Qed.

Lemma collect_items_spec (items : list json) :
  forall acc acc',
    collect_items items acc = Ok acc' ->
    exists new,
      acc' = (acc ++ new)%list /\
      forall v, v ∈ new <->
                exists item, item ∈ items /\
                             get_prop item "treatmentId" = Ok v /\ truthy v = true.
Proof.
  induction items as [| item items IH]; intros acc acc' H.
  - injection H as <-. exists []. split; [rewrite app_nil_r; reflexivity |].
    intros v. split.
    + intros Hv. apply elem_of_nil in Hv. contradiction.
    + intros (i & Hi & _). apply elem_of_nil in Hi. contradiction.
  - cbn [collect_items] in H.
    destruct (get_prop item "treatmentId") as [tid | e] eqn:Hg; [| discriminate].
    destruct (truthy tid) eqn:Ht.
    + destruct (IH _ _ H) as (new & -> & Hnew).
      exists (tid :: new). split; [rewrite <- app_assoc; reflexivity |].
      intros v. rewrite elem_of_cons, Hnew. split.
      * intros [-> | (i & Hi & Hgi & Hti)].
        -- exists item. split; [apply list_elem_of_here | auto].
        -- exists i. split; [apply list_elem_of_further; exact Hi | auto].
      * intros (i & Hi & Hgi & Hti). apply elem_of_cons in Hi as [-> | Hi].
        -- left. congruence.
        -- right. eauto.
    + destruct (IH _ _ H) as (new & -> & Hnew).
      exists new. split; [reflexivity |].
      intros v. rewrite Hnew. split.
      * intros (i & Hi & Hgi & Hti).
        exists i. split; [apply list_elem_of_further; exact Hi | auto].
      * intros (i & Hi & Hgi & Hti). apply elem_of_cons in Hi as [-> | Hi].
        -- congruence.
        -- eauto.
Qed.

Lemma invoicedTreatmentIds_spec (invoices : list json) :
  forall acc acc',
    invoicedTreatmentIds invoices acc = Ok acc' ->
    exists new,
      acc' = (acc ++ new)%list /\
      forall v, v ∈ new <->
                exists invoice items item,
                  invoice ∈ invoices /\
                  get_prop invoice "lineItems" = Ok (JArray items) /\
                  item ∈ items /\
                  get_prop item "treatmentId" = Ok v /\ truthy v = true.
Proof.
  induction invoices as [| invoice invoices IH]; intros acc acc' H.
  - injection H as <-. exists []. split; [rewrite app_nil_r; reflexivity |].
    intros v. split.
    + intros Hv. apply elem_of_nil in Hv. contradiction.
    + intros (i & ? & ? & Hi & _). apply elem_of_nil in Hi. contradiction.
  - cbn [invoicedTreatmentIds] in H.
    destruct (get_prop invoice "lineItems") as [li | e] eqn:Hg; [| discriminate].
    assert (Hskip : (forall items, li <> JArray items) ->
                    invoicedTreatmentIds invoices acc = Ok acc' ->
                    exists new,
                      acc' = (acc ++ new)%list /\
                      forall v, v ∈ new <->
                        exists invoice0 items item,
                          invoice0 ∈ invoice :: invoices /\
                          get_prop invoice0 "lineItems" = Ok (JArray items) /\
                          item ∈ items /\
                          get_prop item "treatmentId" = Ok v /\ truthy v = true).
    { intros Hna H'. destruct (IH _ _ H') as (new & -> & Hnew).
      exists new. split; [reflexivity |]. intros v. rewrite Hnew. split.
      - intros (i0 & its & it & Hi0 & R). exists i0, its, it.
        split; [apply list_elem_of_further; exact Hi0 | exact R].
      - intros (i0 & its & it & Hi0 & Hli & R).
        apply elem_of_cons in Hi0 as [-> | Hi0].
        + rewrite Hg in Hli. injection Hli as ->. exfalso. eapply Hna. reflexivity.
        + exists i0, its, it. auto. }
    destruct li as [| | b | z | s | items | props];
      try (apply Hskip; [intros items; discriminate | exact H]).
    destruct (collect_items items acc) as [acc1 | e] eqn:Hc; [| discriminate].
    destruct (collect_items_spec items _ _ Hc) as (new1 & -> & Hnew1).
    destruct (IH _ _ H) as (new2 & -> & Hnew2).
    exists (new1 ++ new2)%list. split; [rewrite app_assoc; reflexivity |].
    intros v. rewrite elem_of_app, Hnew1, Hnew2. split.
    + intros [(it & Hit & R) | (i0 & its & it & Hi0 & R)].
      * exists invoice, items, it. split; [apply list_elem_of_here | auto].
      * exists i0, its, it. split; [apply list_elem_of_further; exact Hi0 | exact R].
    + intros (i0 & its & it & Hi0 & Hli & Hit & R).
      apply elem_of_cons in Hi0 as [-> | Hi0].
      * left. rewrite Hg in Hli. injection Hli as <-. eauto.
      * right. exists i0, its, it. auto.
Qed.

(** X19.  The treatments counted as invoiced are exactly the truthy
    [treatmentId] of the line items of the invoices whose [lineItems] is an
    array; an invoice whose [lineItems] is anything else contributes
    nothing. *)
Theorem invoicedTreatmentIds_membership (invoices ids : list json) :
  invoicedTreatmentIds invoices [] = Ok ids ->
  forall v,
    v ∈ ids <->
    exists invoice items item,
      invoice ∈ invoices /\
      get_prop invoice "lineItems" = Ok (JArray items) /\
      item ∈ items /\
      get_prop item "treatmentId" = Ok v /\ truthy v = true.
Proof.
  intros H. destruct (invoicedTreatmentIds_spec invoices [] ids H) as (new & -> & Hnew).
  exact Hnew.
Qed.

Lemma invoicedTreatmentIds_membership_witness :
  JNumber 7 ∈ [JNumber 7].
Proof.
  apply (invoicedTreatmentIds_membership
           [ JObject [("lineItems",
                       JArray [ JObject [("description", JString "scaling")];
                                JObject [("treatmentId", JNumber 7)] ])];
             JObject [("lineItems", JString "n/a")] ]
           [JNumber 7] eq_refl (JNumber 7)).
  eexists _, _, (JObject [("treatmentId", JNumber 7)]).
  split; [apply list_elem_of_here |].
  split; [reflexivity |].
  split; [apply list_elem_of_further, list_elem_of_here |].
  split; reflexivity.
Defined.

(** ** The treatment controller: handlers *)

Ltac ctl :=
  unfold try_catch, then_, query, lift, log, pure, fresh; cbn [notes calls app].

(** Membership of a call in an explicit list of calls. *)
Ltac inv_calls H :=
  repeat (apply elem_of_cons in H as [H | H];
          [first [discriminate H | simplify_eq H; intros; subst] |]);
  try (apply elem_of_nil in H; contradiction).

(** X20.  [getTreatments] reads the invoices only when [excludeInvoiced]
    is the string [true] and a patient is given; the [where] it hands to
    [Treatment.findAll] restricts to the patient whenever one is given,
    and excludes ids only with the invoiced ids of that patient, never
    with an empty list. *)
Theorem getTreatments_where
    (db : Models) (patientHN excludeInvoiced : option string) :
  let w := snd (getTreatments db patientHN excludeInvoiced fresh) in
  (forall p, CInvoiceFindAll p ∈ calls w ->
     excludeInvoiced = Some "true" /\ present patientHN = true /\
     patientHN = Some p) /\
  (forall wh, CTreatmentFindAll wh ∈ calls w ->
     where_patientHN wh = (if present patientHN then patientHN else None) /\
     where_id_notIn wh <> Some [] /\
     (forall ids, where_id_notIn wh = Some ids ->
        excludeInvoiced = Some "true" /\ present patientHN = true /\
        exists invoices,
          Invoice_findAll db (default "" patientHN) = Ok invoices /\
          invoicedTreatmentIds invoices [] = Ok ids)) /\
  (bool_decide (excludeInvoiced = Some "true") && present patientHN = false ->
   calls w = [CTreatmentFindAll
                (mkWhere (if present patientHN then patientHN else None) None)]).
Proof.
  intros w. subst w. unfold getTreatments. ctl.
  destruct (bool_decide (excludeInvoiced = Some "true")) eqn:He.
  - apply bool_decide_eq_true in He.
    destruct (present patientHN) eqn:Hp; cbn [andb].
    + destruct patientHN as [hn |]; [| discriminate Hp].
      cbn [default from_option Datatypes.id].
      destruct (Invoice_findAll db hn) as [invoices | e] eqn:Hi;
        [destruct (invoicedTreatmentIds invoices []) as [ids | e] eqn:Hids;
         [destruct (Z.ltb_spec 0 (Z.of_nat (length ids))) as [Hpos | Hpos] |] |];
        cbn; try destruct (Treatment_findAll db _); cbn;
        (split; [| split];
         [ intros p Hin; inv_calls Hin; auto
         | intros wh Hin; inv_calls Hin;
           (split; [reflexivity |];
            split; [try discriminate; intros [= ->]; simpl in Hpos; lia |];
            intros ids' [=]; subst; eauto)
         | discriminate ]).
    + destruct (Treatment_findAll db _); cbn;
        (split; [| split];
         [ intros p Hin; inv_calls Hin
         | intros wh Hin; inv_calls Hin;
           (split; [reflexivity |]; split; [discriminate |]; intros ids' [=])
         | reflexivity ]).
  - cbn [andb].
    destruct (present patientHN) eqn:Hp;
      destruct (Treatment_findAll db _); cbn;
        (split; [| split];
         [ intros p Hin; inv_calls Hin
         | intros wh Hin; inv_calls Hin;
           (split; [reflexivity |]; split; [discriminate |]; intros ids' [=])
         | reflexivity ]).
Qed.

Lemma role_is (u : Payload) (r : string) :
  strict_eq (claim (role u)) (JString r) = true <-> role u = Some r.
Proof.
  destruct (role u) as [s |]; simpl; [| split; discriminate].
  rewrite String.eqb_eq. split; congruence.
Qed.

(** X21.  [updateTreatment] writes only when the treatment exists and the
    caller is the user recorded in [performedBy], an [admin] or a
    [manager]; what it writes is the eight fields of the body.  An id that
    matches no treatment is answered 404 for every caller, with nothing
    logged. *)
Theorem updateTreatment_guarded
    (db : Models) (id : string) (user : option Payload) (body : TreatmentFields) :
  let r := fst (updateTreatment db id user body fresh) in
  let w := snd (updateTreatment db id user body fresh) in
  (forall row data, CTreatmentUpdate row data ∈ calls w ->
     Treatment_findByPk db id = Ok row /\ truthy row = true /\
     (exists u performedBy,
        user = Some u /\ get_prop row "performedBy" = Ok performedBy /\
        (strict_eq (claim (userId u)) performedBy = true \/
         role u = Some "admin" \/ role u = Some "manager")) /\
     data = mkUpdate (f_treatmentDate body) (f_procedureCodes body)
              (f_description body) (f_toothNumbers body) (f_performedBy body)
              (f_clinicalNotes body) (f_estimatedCost body) (f_status body)) /\
  (forall row, Treatment_findByPk db id = Ok row -> truthy row = false ->
     r = Ok (Send 404 (message_body "Treatment not found")) /\
     w = mkWorld [] [CTreatmentFindByPk id]).
Proof.
  intros r w. subst r w. unfold updateTreatment. ctl.
  destruct (Treatment_findByPk db id) as [row | e] eqn:Hrow; cbn.
  2:{ split; [intros ? ? Hin; inv_calls Hin | intros ? [=]]. }
  destruct (truthy row) eqn:Ht; cbn.
  2:{ split; [intros ? ? Hin; inv_calls Hin |].
      intros ? [= <-] _. split; reflexivity. }
  split; [| intros ? [= <-] Hf; congruence].
  destruct user as [u |]; cbn; [| intros ? ? Hin; inv_calls Hin].
  destruct (get_prop row "performedBy") as [p |] eqn:Hp; cbn;
    [| intros ? ? Hin; inv_calls Hin].
  destruct (strict_eq (claim (userId u)) p) eqn:Hc; cbn.
  - destruct (Treatment_update db row _); cbn; intros ? ? Hin; inv_calls Hin;
      (split; [reflexivity |]; split; [exact Ht |]; split; [| reflexivity];
       exists u, p; auto).
  - destruct (strict_eq (claim (role u)) (JString "admin")) eqn:Ha; cbn.
    + apply role_is in Ha.
      destruct (Treatment_update db row _); cbn; intros ? ? Hin; inv_calls Hin;
        (split; [reflexivity |]; split; [exact Ht |]; split; [| reflexivity];
         exists u, p; auto).
    + destruct (strict_eq (claim (role u)) (JString "manager")) eqn:Hm; cbn.
      * apply role_is in Hm.
        destruct (Treatment_update db row _); cbn; intros ? ? Hin; inv_calls Hin;
          (split; [reflexivity |]; split; [exact Ht |]; split; [| reflexivity];
           exists u, p; auto).
      * intros ? ? Hin; inv_calls Hin.
Qed.

(** X22.  A caller who is neither the user recorded in [performedBy] nor
    an [admin] nor a [manager] is answered 403: the model is not written,
    and one [warn] record keeps the caller, the role, the treatment and the
    user recorded in it. *)
Theorem updateTreatment_denied
    (db : Models) (id : string) (u : Payload) (body : TreatmentFields)
    (row performedBy : json) :
  Treatment_findByPk db id = Ok row -> truthy row = true ->
  get_prop row "performedBy" = Ok performedBy ->
  strict_eq (claim (userId u)) performedBy = false ->
  role u <> Some "admin" -> role u <> Some "manager" ->
  updateTreatment db id (Some u) body fresh
  = (Ok (Send 403 (message_body "Unauthorized to edit this treatment")),
     mkWorld
       [ mkNote "warn" "Unauthorized treatment update attempt"
           [ ("userId", claim (userId u)); ("userRole", claim (role u));
             ("treatmentId", JString id); ("originalPerformedBy", performedBy) ] ]
       [ CTreatmentFindByPk id ]).
Proof.
  intros Hrow Ht Hp Hc Ha Hm. unfold updateTreatment. ctl.
  rewrite Hrow. cbn. rewrite Ht. cbn. rewrite Hp. cbn. rewrite Hc.
  assert (Ha' : strict_eq (claim (role u)) (JString "admin") = false).
  { apply not_true_is_false. intros E. apply role_is in E. contradiction. }
  assert (Hm' : strict_eq (claim (role u)) (JString "manager") = false).
  { apply not_true_is_false. intros E. apply role_is in E. contradiction. }
  rewrite Ha', Hm'. reflexivity.
Qed.

Lemma updateTreatment_denied_witness :
  fst (updateTreatment sample_models "t-1"
         (Some (mkPayload (Some "u-4") None None (Some "dentist") None None))
         empty_body fresh)
  = Ok (Send 403 (message_body "Unauthorized to edit this treatment")).
Proof.
  rewrite (updateTreatment_denied sample_models "t-1"
             (mkPayload (Some "u-4") None None (Some "dentist") None None)
             empty_body
             (JObject [("id", JString "t-1"); ("performedBy", JString "u-3")])
             (JString "u-3")); try reflexivity; discriminate.
Defined.

(** X23.  [createTreatment] creates a treatment only for a caller with a
    principal, after the patient was found and the user it attributes the
    treatment to was found: that user is [performedBy] of the body when
    given, the caller otherwise.  What it creates has the fields of the
    body, with [null], [[]], [[]], [0] and [planned] in place of a missing
    appointment, procedure codes, tooth numbers, cost and status.  A
    patient that is not found is answered 404 and no user is looked up; a
    user that is not found is answered 400. *)
Theorem createTreatment_guarded
    (db : Models) (NODE_ENV : option string) (user : option Payload)
    (body : TreatmentFields) :
  let r := fst (createTreatment db NODE_ENV user body fresh) in
  let w := snd (createTreatment db NODE_ENV user body fresh) in
  (forall data, CTreatmentCreate data ∈ calls w ->
     exists u patient dentist,
       user = Some u /\
       Patient_findOne db (f_patientHN body) = Ok patient /\ truthy patient = true /\
       User_findByPk db (f_performedBy data) = Ok dentist /\ truthy dentist = true /\
       data = mkFields (f_patientHN body)
                (or_else (f_appointmentId body) JNull)
                (f_treatmentDate body)
                (or_else (f_procedureCodes body) (JArray []))
                (f_description body)
                (or_else (f_toothNumbers body) (JArray []))
                (or_else (f_performedBy body) (claim (userId u)))
                (f_clinicalNotes body)
                (or_else (f_estimatedCost body) (JNumber 0))
                (or_else (f_status body) (JString "planned")) /\
       truthy (f_status data) = true /\
       truthy (f_procedureCodes data) = true /\
       truthy (f_toothNumbers data) = true) /\
  (forall u patient,
     user = Some u ->
     Patient_findOne db (f_patientHN body) = Ok patient -> truthy patient = false ->
     r = Ok (Send 404 (message_body "Patient not found")) /\
     calls w = [CPatientFindOne (f_patientHN body)]) /\
  (forall u patient dentist,
     user = Some u ->
     Patient_findOne db (f_patientHN body) = Ok patient -> truthy patient = true ->
     User_findByPk db (or_else (f_performedBy body) (claim (userId u))) = Ok dentist ->
     truthy dentist = false ->
     r = Ok (Send 400 (message_body "Invalid dentist/user ID for performedBy field")) /\
     calls w = [CPatientFindOne (f_patientHN body);
                CUserFindByPk (or_else (f_performedBy body) (claim (userId u)))]).
Proof.
  assert (Hor : forall a b, truthy b = true -> truthy (or_else a b) = true).
  { intros a b Hb. unfold or_else. destruct (truthy a) eqn:Ha; assumption. }
  intros r w. subst r w. unfold createTreatment. ctl.
  destruct user as [u |]; cbn.
  2:{ split; [intros ? Hin; inv_calls Hin |]. split; intros; congruence. }
  destruct (Patient_findOne db (f_patientHN body)) as [patient | e] eqn:Hpat; cbn.
  2:{ split; [intros ? Hin; inv_calls Hin |]. split; intros; congruence. }
  destruct (truthy patient) eqn:Htp; cbn.
  2:{ split; [intros ? Hin; inv_calls Hin |]. split.
      - intros ? ? [= <-] [= <-] _. split; reflexivity.
      - intros ? ? ? [= <-] [= <-] Hf. congruence. }
  destruct (User_findByPk db _) as [dentist | e] eqn:Hden; cbn.
  2:{ split; [intros ? Hin; inv_calls Hin |]. split.
      - intros ? ? [= <-] [= <-] Hf. congruence.
      - intros ? ? ? [= <-] _ _ Hd. congruence. }
  destruct (truthy dentist) eqn:Htd; cbn.
  2:{ split; [intros ? Hin; inv_calls Hin |]. split.
      - intros ? ? [= <-] [= <-] Hf. congruence.
      - intros ? ? ? [= <-] _ _ Hd _. split; reflexivity. }
  split.
  - destruct (Treatment_create db _) as [row | e]; cbn;
      [destruct (get_prop row "id"); cbn |];
      intros ? Hin; inv_calls Hin;
      (exists u, patient, dentist; cbn [f_performedBy f_status f_procedureCodes f_toothNumbers];
       repeat split; try assumption; try reflexivity; apply Hor; reflexivity).
  - split.
    + intros ? ? [= <-] [= <-] Hf. congruence.
    + intros ? ? ? [= <-] _ _ Hd Hf. congruence.
Qed.


Lemma collect_items_null (items : list json) (acc : list json) :
  JNull ∈ items \/ JUndefined ∈ items ->
  exists e, collect_items items acc = Throw e /\ name e = "TypeError".
Proof.
  revert acc. induction items as [| item items IH]; intros acc H.
  - destruct H as [H | H]; apply elem_of_nil in H; contradiction.
  - cbn [collect_items].
    destruct (get_prop item "treatmentId") as [tid | e] eqn:Hg.
    + assert (Hrest : JNull ∈ items \/ JUndefined ∈ items).
      { destruct H as [H | H]; apply elem_of_cons in H as [<- | H];
          try discriminate Hg; auto. }
      destruct (truthy tid); apply IH; exact Hrest.
    + exists e. split; [reflexivity |].
      destruct item; simpl in Hg; try discriminate Hg; injection Hg as <-; reflexivity.
Qed.

Lemma collect_items_throw_name (items acc : list json) (e : Error) :
  collect_items items acc = Throw e -> name e = "TypeError".
Proof.
  revert acc. induction items as [| item items IH]; intros acc H; [discriminate |].
  cbn [collect_items] in H.
  destruct (get_prop item "treatmentId") as [tid | e'] eqn:Hg.
  - destruct (truthy tid); eapply IH; exact H.
  - injection H as <-.
    destruct item; simpl in Hg; try discriminate Hg; injection Hg as <-; reflexivity.
Qed.

Lemma invoicedTreatmentIds_null (invoices : list json) (acc : list json)
    (invoice : json) (items : list json) :
  invoice ∈ invoices ->
  get_prop invoice "lineItems" = Ok (JArray items) ->
  JNull ∈ items \/ JUndefined ∈ items ->
  exists e, invoicedTreatmentIds invoices acc = Throw e /\ name e = "TypeError".
Proof.
  revert acc. induction invoices as [| inv invoices IH]; intros acc Hin Hli Hnull.
  - apply elem_of_nil in Hin. contradiction.
  - cbn [invoicedTreatmentIds].
    apply elem_of_cons in Hin as [<- | Hin].
    + rewrite Hli.
      destruct (collect_items_null items acc Hnull) as (e & -> & He). eauto.
    + destruct (get_prop inv "lineItems") as [li | e] eqn:Hg.
      * destruct li as [| | b | z | s | its | props]; try (apply IH; assumption).
        destruct (collect_items its acc) as [acc' | e] eqn:Hc.
        -- apply IH; assumption.
        -- apply collect_items_throw_name in Hc. eauto.
      * exists e. split; [reflexivity |].
        destruct inv; simpl in Hg; try discriminate Hg; injection Hg as <-; reflexivity.
Qed.

(** X25.  One [null] (or missing) entry among the line items of an
    invoice of the patient makes the filtered listing fail: the request is
    answered 500, the treatments are not read, and the [TypeError] is
    logged. *)
Theorem getTreatments_null_line_item
    (db : Models) (hn : string) (invoices : list json) (invoice : json)
    (items : list json) :
  present (Some hn) = true ->
  Invoice_findAll db hn = Ok invoices ->
  invoice ∈ invoices ->
  get_prop invoice "lineItems" = Ok (JArray items) ->
  JNull ∈ items \/ JUndefined ∈ items ->
  exists e,
    name e = "TypeError" /\
    getTreatments db (Some hn) (Some "true") fresh
    = (Ok (Send 500 (message_body "Failed to fetch treatments")),
       mkWorld
         [ mkNote "error" "Error fetching treatments" [("error", JString (message e))] ]
         [ CInvoiceFindAll hn ]).
Proof.
  intros Hp Hi Hin Hli Hnull.
  destruct (invoicedTreatmentIds_null invoices [] invoice items Hin Hli Hnull)
    as (e & He & Hn).
  exists e. split; [exact Hn |].
  unfold getTreatments. ctl. rewrite Hp. cbn. rewrite Hi. cbn. rewrite He. reflexivity.
Qed.

Lemma getTreatments_null_line_item_witness :
  exists e,
    name e = "TypeError" /\
    getTreatments
      (mkModels
         (fun _ => Ok [JObject [("lineItems", JArray [JNull])]])
         (fun _ => Ok (JArray [])) (fun _ => Ok JNull) (fun _ => Ok JNull)
         (fun _ => Ok JNull) (fun _ => Ok JNull) (fun row _ => Ok row))
      (Some "HN-001") (Some "true") fresh
    = (Ok (Send 500 (message_body "Failed to fetch treatments")),
       mkWorld
         [ mkNote "error" "Error fetching treatments" [("error", JString (message e))] ]
         [ CInvoiceFindAll "HN-001" ]).
Proof.
  apply (getTreatments_null_line_item
           (mkModels
              (fun _ => Ok [JObject [("lineItems", JArray [JNull])]])
              (fun _ => Ok (JArray [])) (fun _ => Ok JNull) (fun _ => Ok JNull)
              (fun _ => Ok JNull) (fun _ => Ok JNull) (fun row _ => Ok row))
           "HN-001" [JObject [("lineItems", JArray [JNull])]]
           (JObject [("lineItems", JArray [JNull])]) [JNull]).
  - reflexivity.
  - reflexivity.
  - apply list_elem_of_here.
  - reflexivity.
  - left. apply list_elem_of_here.
Defined.

(** ** The upload middleware *)

Lemma matches_Match (r : regex) :
  forall s k, matches r s k = true <-> exists rest, Match r s rest /\ k rest = true.
Proof.
  induction r as [c | r1 IH1 r2 IH2 | r1 IH1 r2 IH2 | |]; intros s k; cbn [matches].
  - destruct s as [| a rest].
    + split; [discriminate | intros (? & H & _); inversion H].
    + destruct (Ascii.eqb_spec (canonicalize a) (canonicalize c)) as [He | He].
      * split; [intros Hk; exists rest; split; [constructor; exact He | exact Hk] |].
        intros (rest' & H & Hk). inversion H; subst. exact Hk.
      * split; [discriminate |]. intros (rest' & H & _). inversion H; subst. contradiction.
  - rewrite IH1. split.
    + intros (mid & H1 & H2). apply IH2 in H2 as (rest & H2 & Hk).
      exists rest. split; [econstructor; eassumption | exact Hk].
    + intros (rest & H & Hk). inversion H; subst.
      exists mid. split; [assumption |]. apply IH2. eauto.
  - rewrite orb_true_iff, IH1, IH2. split.
    + intros [(rest & H & Hk) | (rest & H & Hk)]; exists rest;
        (split; [| exact Hk]); [apply MAltL | apply MAltR]; exact H.
    + intros (rest & H & Hk). inversion H; subst; [left | right]; eauto.
  - split; [intros Hk; exists s; split; [constructor | exact Hk] |].
    intros (rest & H & Hk). inversion H; subst. exact Hk.
  - destruct s as [| a s].
    + split; [intros Hk; exists EmptyString; split; [constructor | exact Hk] |].
      intros (rest & H & Hk). inversion H; subst. exact Hk.
    + split; [discriminate | intros (? & H & _); inversion H].
Qed.

Lemma regex_found_spec (r : regex) (s : string) :
  regex_found r s = true <->
  exists stem suffix rest, s = stem +:+ suffix /\ Match r suffix rest.
Proof.
  induction s as [| a s IH]; cbn [regex_found].
  - rewrite orb_false_r, matches_Match. split.
    + intros (rest & H & _). exists EmptyString, EmptyString, rest. auto.
    + intros (stem & suffix & rest & Hs & H).
      destruct stem; [| discriminate].
      rewrite append_nil in Hs. subst suffix. eauto.
  - rewrite orb_true_iff, matches_Match, IH. split.
    + intros [(rest & H & _) | (stem & suffix & rest & -> & H)].
      * exists EmptyString, (String a s), rest. auto.
      * exists (String a stem), suffix, rest. auto.
    + intros (stem & suffix & rest & Hs & H). destruct stem as [| b stem].
      * rewrite append_nil in Hs. subst suffix. left. eauto.
      * rewrite append_cons in Hs. injection Hs as -> ->. right. eauto.
Qed.

Lemma lower_canonicalize (a : ascii) : lower (canonicalize a) = lower a.
Proof. destruct a as [[] [] [] [] [] [] [] []]; vm_compute; reflexivity. Qed.

Lemma canonicalize_of_lower (a : ascii) : canonicalize (lower a) = canonicalize a.
Proof. destruct a as [[] [] [] [] [] [] [] []]; vm_compute; reflexivity. Qed.

(** Under the [i] flag a character matches a lower-case pattern character
    exactly when its lower case is that character. *)
Lemma canonicalize_lower (a c : ascii) :
  lower c = c -> canonicalize a = canonicalize c <-> lower a = c.
Proof.
  intros Hc. split.
  - intros H. rewrite <- Hc, <- (lower_canonicalize a), H. apply lower_canonicalize.
  - intros <-. apply eq_sym, canonicalize_of_lower.
Qed.

Lemma lower_string_append (a b : string) :
  lower_string (a +:+ b) = lower_string a +:+ lower_string b.
Proof.
  induction a as [| c a IH]; [reflexivity |].
  rewrite append_cons. cbn [lower_string]. rewrite IH, append_cons. reflexivity.
Qed.

Lemma lower_string_split (s x y : string) :
  lower_string s = x +:+ y ->
  exists s1 s2, s = s1 +:+ s2 /\ lower_string s1 = x /\ lower_string s2 = y.
Proof.
  revert s. induction x as [| c x IH]; intros s H.
  - exists EmptyString, s. auto.
  - rewrite append_cons in H. destruct s as [| a s]; [discriminate |].
    cbn [lower_string] in H. injection H as Ha Hs.
    destruct (IH s Hs) as (s1 & s2 & -> & H1 & H2).
    exists (String a s1), s2. rewrite append_cons. cbn [lower_string].
    rewrite Ha, H1. auto.
Qed.

Ltac invert_match :=
  repeat match goal with
         | H : Match (RSeq _ _) _ _ |- _ => inversion H; clear H; subst
         | H : Match (RAlt _ _) _ _ |- _ => inversion H; clear H; subst
         | H : Match (RChar _) _ _ |- _ => inversion H; clear H; subst
         | H : Match REmpty _ _ |- _ => inversion H; clear H; subst
         | H : Match REnd _ _ |- _ => inversion H; clear H; subst
         end.

Ltac lower_facts :=
  repeat match goal with
         | H : canonicalize _ = canonicalize _ |- _ =>
             apply canonicalize_lower in H; [| reflexivity]
         end.

(** The pattern matches a suffix exactly when, in lower case, the suffix
    is a dot and one of the five extensions. *)
Lemma ALLOWED_EXTENSIONS_Match (suffix rest : string) :
  Match ALLOWED_EXTENSIONS suffix rest <->
  rest = EmptyString /\
  exists ext, ext ∈ image_extensions /\ lower_string suffix = "." +:+ ext.
Proof.
  split.
  - unfold ALLOWED_EXTENSIONS. cbn [literal]. intros H.
    invert_match; lower_facts; (split; [reflexivity |]);
      cbn [lower_string];
      repeat match goal with H : lower _ = _ |- _ => rewrite H; clear H end.
    + exists "jpg". split; [| reflexivity]. unfold image_extensions. set_solver.
    + exists "jpeg". split; [| reflexivity]. unfold image_extensions. set_solver.
    + exists "png". split; [| reflexivity]. unfold image_extensions. set_solver.
    + exists "gif". split; [| reflexivity]. unfold image_extensions. set_solver.
    + exists "webp". split; [| reflexivity]. unfold image_extensions. set_solver.
  - intros (-> & ext & Hext & Hl).
    unfold image_extensions in Hext.
    assert (Hc : forall a c, lower c = c -> lower a = c ->
                 canonicalize a = canonicalize c).
    { intros a c Hc Ha. apply canonicalize_lower; assumption. }
    unfold ALLOWED_EXTENSIONS. cbn [literal].
    repeat (apply elem_of_cons in Hext as [-> | Hext]);
      [| | | | | apply elem_of_nil in Hext; contradiction];
      repeat first [rewrite append_nil in Hl | rewrite append_cons in Hl];
      repeat (destruct suffix as [| ? suffix]; [discriminate Hl |];
              cbn [lower_string] in Hl; injection Hl as ? Hl);
      (destruct suffix; [| discriminate Hl]);
      (eapply MSeq; [apply MChar; apply Hc; [reflexivity | assumption] |]);
      (eapply MSeq; [| apply MEnd]).
    + apply MAltL.
      repeat (eapply MSeq; [apply MChar; apply Hc; [reflexivity | assumption] |]).
      apply MEmpty.
    + apply MAltR, MAltL.
      repeat (eapply MSeq; [apply MChar; apply Hc; [reflexivity | assumption] |]).
      apply MEmpty.
    + apply MAltR, MAltR, MAltL.
      repeat (eapply MSeq; [apply MChar; apply Hc; [reflexivity | assumption] |]).
      apply MEmpty.
    + apply MAltR, MAltR, MAltR, MAltL.
      repeat (eapply MSeq; [apply MChar; apply Hc; [reflexivity | assumption] |]).
      apply MEmpty.
    + apply MAltR, MAltR, MAltR, MAltR.
      repeat (eapply MSeq; [apply MChar; apply Hc; [reflexivity | assumption] |]).
      apply MEmpty.
Qed.

(** X26.  The upload filter takes a file exactly when its MIME type is
    one of the four image types and its name ends, whatever the case of its
    letters, in [.jpg], [.jpeg], [.png], [.gif] or [.webp]; a file of
    another MIME type is refused for its type, whatever its name. *)
Theorem fileFilter_accepts (mimetype originalname : string) :
  (fileFilter mimetype originalname = Ok true <->
   mimetype ∈ ALLOWED_MIMETYPES /\
   exists stem ext,
     ext ∈ image_extensions /\
     lower_string originalname = stem +:+ "." +:+ ext) /\
  (mimetype ∉ ALLOWED_MIMETYPES ->
   fileFilter mimetype originalname
   = Throw (mkError "Error"
              "Invalid file type. Only JPEG, PNG, GIF, and WebP are allowed.")).
Proof.
  assert (Hfound : regex_found ALLOWED_EXTENSIONS originalname = true <->
            exists stem ext, ext ∈ image_extensions /\
              lower_string originalname = stem +:+ "." +:+ ext).
  { rewrite regex_found_spec. split.
    - intros (stem & suffix & rest & -> & H).
      apply ALLOWED_EXTENSIONS_Match in H as (_ & ext & Hext & Hl).
      exists (lower_string stem), ext. split; [exact Hext |].
      rewrite lower_string_append, Hl. reflexivity.
    - intros (stem & ext & Hext & Hl).
      apply lower_string_split in Hl as (s1 & s2 & -> & _ & H2).
      exists s1, s2, EmptyString. split; [reflexivity |].
      apply ALLOWED_EXTENSIONS_Match. split; [reflexivity |]. eauto. }
  unfold fileFilter. split.
  - destruct (bool_decide (mimetype ∈ ALLOWED_MIMETYPES)) eqn:Hm; cbn [negb].
    + apply bool_decide_eq_true in Hm.
      destruct (regex_found ALLOWED_EXTENSIONS originalname) eqn:Hr; cbn [negb].
      * split; [intros _; split; [exact Hm | apply Hfound; reflexivity] | reflexivity].
      * split; [discriminate |]. intros (_ & H). apply Hfound in H. discriminate H.
    + apply bool_decide_eq_false in Hm. split; [discriminate | tauto].
  - intros Hm. rewrite bool_decide_eq_false_2 by exact Hm. reflexivity.
Qed.

(** X27.  Whoever is the user recorded in [performedBy] of an existing
    treatment, or an [admin], or a [manager], gets the update through:
    the model is written once, with the eight fields of the body, and the
    answer is the updated row, or 500 when the write fails. *)
Theorem updateTreatment_permitted
    (db : Models) (id : string) (u : Payload) (body : TreatmentFields)
    (row performedBy : json) :
  Treatment_findByPk db id = Ok row -> truthy row = true ->
  get_prop row "performedBy" = Ok performedBy ->
  strict_eq (claim (userId u)) performedBy = true \/
  role u = Some "admin" \/ role u = Some "manager" ->
  let data :=
    mkUpdate (f_treatmentDate body) (f_procedureCodes body) (f_description body)
      (f_toothNumbers body) (f_performedBy body) (f_clinicalNotes body)
      (f_estimatedCost body) (f_status body) in
  let r := fst (updateTreatment db id (Some u) body fresh) in
  let w := snd (updateTreatment db id (Some u) body fresh) in
  calls w = [CTreatmentFindByPk id; CTreatmentUpdate row data] /\
  (forall updated, Treatment_update db row data = Ok updated ->
     r = Ok (Send 200 updated) /\
     notes w = [ mkNote "info" "Treatment updated"
                   [("treatmentId", JString id); ("updatedBy", claim (userId u))] ]) /\
  (forall e, Treatment_update db row data = Throw e ->
     r = Ok (Send 500 (message_body "Failed to update treatment"))).
Proof.
  intros Hrow Ht Hp Hwho data r w. subst r w.
  assert (Hgate : negb (strict_eq (claim (userId u)) performedBy)
                  && negb (strict_eq (claim (role u)) (JString "admin"))
                  && negb (strict_eq (claim (role u)) (JString "manager")) = false).
  { destruct Hwho as [Hc | [Ha | Hm]].
    - rewrite Hc. reflexivity.
    - apply role_is in Ha. rewrite Ha.
      destruct (strict_eq (claim (userId u)) performedBy); reflexivity.
    - apply role_is in Hm. rewrite Hm.
      destruct (strict_eq (claim (userId u)) performedBy),
        (strict_eq (claim (role u)) (JString "admin")); reflexivity. }
  unfold updateTreatment. ctl.
  rewrite Hrow. cbn. rewrite Ht. cbn. rewrite Hp. cbn. rewrite Hgate.
  fold data. destruct (Treatment_update db row data) as [updated | e]; cbn.
  - split; [reflexivity |]. split; [intros ? [= <-]; split; reflexivity | intros ? [=]].
  - split; [reflexivity |]. split; [intros ? [=] | intros ? _; reflexivity].
Qed.

Lemma updateTreatment_permitted_witness :
  calls (snd (updateTreatment sample_models "t-1"
                (Some (mkPayload (Some "u-9") None None (Some "manager") None None))
                empty_body fresh))
  = [ CTreatmentFindByPk "t-1";
      CTreatmentUpdate
        (JObject [("id", JString "t-1"); ("performedBy", JString "u-3")])
        (mkUpdate JUndefined JUndefined JUndefined JUndefined JUndefined
           JUndefined JUndefined JUndefined) ].
Proof.
  apply (updateTreatment_permitted sample_models "t-1"
           (mkPayload (Some "u-9") None None (Some "manager") None None)
           empty_body
           (JObject [("id", JString "t-1"); ("performedBy", JString "u-3")])
           (JString "u-3")); try reflexivity.
  right. right. reflexivity.
Defined.

(** X28.  No exception leaves the three other handlers either: a listing
    is answered 200 or 500, a lookup 200, 404 or 500, an update 200, 403,
    404 or 500, and a 500 carries the fixed message of its handler and
    nothing of the error, which goes to the log. *)
Theorem handlers_always_respond
    (db : Models) (id : string) (patientHN excludeInvoiced : option string)
    (user : option Payload) (body : TreatmentFields) :
  (exists status sent,
     fst (getTreatments db patientHN excludeInvoiced fresh) = Ok (Send status sent) /\
     (status = 200 \/
      status = 500 /\ sent = message_body "Failed to fetch treatments")) /\
  (exists status sent,
     fst (getTreatmentDetails db id fresh) = Ok (Send status sent) /\
     (status = 200 \/
      status = 404 /\ sent = message_body "Treatment not found" \/
      status = 500 /\ sent = message_body "Failed to fetch treatment details")) /\
  (exists status sent,
     fst (updateTreatment db id user body fresh) = Ok (Send status sent) /\
     (status = 200 \/
      status = 403 /\ sent = message_body "Unauthorized to edit this treatment" \/
      status = 404 /\ sent = message_body "Treatment not found" \/
      status = 500 /\ sent = message_body "Failed to update treatment")).
Proof.
  split; [| split].
  - unfold getTreatments. ctl.
    destruct (bool_decide (excludeInvoiced = Some "true") && present patientHN).
    + destruct (Invoice_findAll db _) as [invoices |]; cbn;
        [destruct (invoicedTreatmentIds invoices []) as [ids |]; cbn;
         [destruct (0 <? Z.of_nat (length ids)); cbn;
          destruct (Treatment_findAll db _); cbn |] |];
        eexists _, _; (split; [reflexivity | tauto]).
    + destruct (Treatment_findAll db _); cbn;
        eexists _, _; (split; [reflexivity | tauto]).
  - unfold getTreatmentDetails. ctl.
    destruct (Treatment_findByPk db id) as [row |]; cbn;
      [destruct (truthy row); cbn |];
      eexists _, _; (split; [reflexivity | tauto]).
  - unfold updateTreatment. ctl.
    destruct (Treatment_findByPk db id) as [row |]; cbn;
      [destruct (truthy row); cbn;
       [destruct user as [u |]; cbn;
        [destruct (get_prop row "performedBy") as [p |]; cbn;
         [destruct (negb (strict_eq (claim (userId u)) p)
                    && negb (strict_eq (claim (role u)) (JString "admin"))
                    && negb (strict_eq (claim (role u)) (JString "manager"))); cbn;
          [| destruct (Treatment_update db row _); cbn] |] |] |] |];
      eexists _, _; (split; [reflexivity | tauto]).
Qed.
